(** * B.L.I.N.K behaviour log: storage accessor and event-log analytics

    A shallow embedding of [BLINK.py]: the SQLite helpers ([add_habit],
    [get_habits], [add_log], [get_logs]), the habit form's submit handler,
    the log form and the "+1" buttons, and the two analytics passes
    ([weekly_counts], [calc_streaks]).

    Conventions of the embedding.
    - The clock is an input: every function that reads [datetime.utcnow()]
      or [pd.Timestamp.utcnow()] takes the reading as an argument.
    - The database is an explicit value threaded through the helpers.
    - A [Frame] is a data frame after [pd.to_datetime] has parsed its [ts]
      column: a column has ONE dtype, either [datetime64[ns]] (naive) or
      [datetime64[ns, UTC]] (aware), and its cells are wall-clock
      nanoseconds since the epoch.  The parse itself is [to_datetime], and
      [calc_streaks_text] and [weekly_counts_text] are the two aggregators
      on the frame [get_logs] returns, parse included.
    - A Python [str] and an SQLite TEXT are the bytes of their UTF-8
      encoding.  Python integers are unbounded; an integer bound to an SQL
      parameter must fit 64 bits.
    - Python exceptions are the [Raise] case of [result]. *)

From stdpp Require Import base list gmap sorting strings.
From Stdlib Require Import ZArith Lia.
From Equations Require Import Equations.

Import Ascii.AsciiSyntax.
Delimit Scope char_scope with char.

Local Open Scope Z_scope.

(** ** Exceptions *)

(** The exception classes the modelled code can raise.  [OverflowError] and
    [IntegrityError] come from the [sqlite3] module, [OutOfBoundsDatetime]
    (a subclass of [ValueError]) from pandas. *)
Inductive exn : Type :=
| ValueError (msg : string)
| OverflowError (msg : string)
| IntegrityError (msg : string)
| OutOfBoundsDatetime.

Inductive result (A : Type) : Type :=
| Ok (a : A)
| Raise (e : exn).
Arguments Ok {A} a.
Arguments Raise {A} e.

Global Instance result_ret : MRet result := λ A a, Ok a.

Global Instance result_bind : MBind result := λ A B k m,
  match m with
  | Ok a => k a
  | Raise e => Raise e
  end.

(** ** 64-bit integers *)

(** The largest signed 64-bit integer: the largest INTEGER of SQLite and the
    largest nanosecond count of [datetime64[ns]]. *)
Definition INT64_MAX : Z := 9223372036854775807.

(** The signed 64-bit integers: the Python integers the [sqlite3] module can
    bind to a parameter. *)
Definition int64 (n : Z) : Prop := - INT64_MAX - 1 ≤ n ≤ INT64_MAX.

Global Instance int64_dec n : Decision (int64 n).
Proof. unfold int64. apply _. Defined.

(** ** Calendar dates and timestamps *)

Module Calendar.

(** Nanoseconds in a day: the unit of [datetime64[ns]] and of [freq='D']. *)
Definition NS_PER_DAY : Z := 86400 * 1000000000.

(** [Timestamp.date()]: the calendar day of a wall-clock instant, as the
    number of days since 1970-01-01. *)
Definition date (t : Z) : Z := t `div` NS_PER_DAY.

(** [Timestamp.normalize()]: the same day at midnight. *)
Definition normalize (t : Z) : Z := date t * NS_PER_DAY.

(** Day number of the civil date [y]-[m]-[d] (proleptic Gregorian), used to
    write inputs such as "Jan 1" below. *)
Definition ymd (y m d : Z) : Z :=
  let y' := if m <=? 2 then y - 1 else y in
  let era := y' `div` 400 in
  let yoe := y' - era * 400 in
  let mp := if m <=? 2 then m + 9 else m - 3 in
  let doy := (153 * mp + 2) `div` 5 + d - 1 in
  let doe := yoe * 365 + yoe `div` 4 - yoe `div` 100 + doy in
  era * 146097 + doe - 719468.

(** The instant [h]:[mi]:[s] on day [day]. *)
Definition at_time (day h mi s : Z) : Z :=
  day * NS_PER_DAY + ((h * 60 + mi) * 60 + s) * 1000000000.

End Calendar.
Export Calendar.

(** ** Data frames and series *)

(** Time-zone awareness of a datetime column or index. *)
Inductive tzinfo : Type := Naive | UTC.

Global Instance tzinfo_eq_dec : EqDecision tzinfo.
Proof. solve_decision. Defined.

(** One row of the frame returned by [get_logs], restricted to the columns
    the analytics read. *)
Record Row : Type := mkRow { habit_id : Z; ts : Z }.

(** The frame after [pd.to_datetime(df['ts'])].  [ts_tz] is the dtype of the
    [ts] column: texts without a UTC offset, which is what
    [datetime.utcnow().isoformat()] writes, parse to a [Naive] column; texts
    that all carry the offset [+00:00] parse to a [UTC] column. *)
Record Frame : Type := mkFrame { ts_tz : tzinfo; rows : list Row }.

(** [df.empty] *)
Definition empty (df : Frame) : bool :=
  match rows df with [] => true | _ => false end.

Inductive Index : Type :=
| DefaultIndex                      (* the index of [pd.Series(dtype=int)] *)
| DatetimeIndex (tz : tzinfo).

(** A series: the kind of its index and its (label, value) pairs in order. *)
Record Series : Type := mkSeries { index : Index; items : list (Z * Z) }.

(** ** calc_streaks *)

Module Streaks.

(** [if habit_id:] is Python truthiness: [None] and [0] are both false. *)
Definition truthy (habit_id : option Z) : bool :=
  match habit_id with
  | None => false
  | Some h => negb (h =? 0)
  end.

(** [.dt.tz_localize(None)]: drop the zone, keep the wall clock. *)
Definition tz_localize_None (df : Frame) : Frame :=
  {| ts_tz := Naive; rows := rows df |}.

(** [df[df['habit_id']==habit_id]] under [if habit_id:]. *)
Definition select (df : Frame) (hid : option Z) : Frame :=
  if truthy hid
  then {| ts_tz := ts_tz df;
          rows := filter (λ r, Some (habit_id r) = hid) (rows df) |}
  else df.

(** [sorted(set([d.date() for d in df['ts']]))] *)
Definition days_of (df : Frame) : list Z :=
  merge_sort Z.le
    (elements (list_to_set ((λ r, date (ts r)) <$> rows df) : gset Z)).

(** One iteration of [for d in days:], on the state [(streak, best, prev)]. *)
Definition walk_step (st : Z * Z * option Z) (d : Z) : Z * Z * option Z :=
  let '(streak, best, prev) := st in
  let streak' :=
    match prev with
    | None => streak + 1
    | Some p => if bool_decide (d = p + 1) then streak + 1 else 1
    end in
  (streak', Z.max best streak', Some d).

Definition walk (days : list Z) : Z * Z * option Z :=
  foldl walk_step (0, 0, None) days.

(** [max(days)]: raises [ValueError] on an empty sequence. *)
Definition py_max (l : list Z) : result Z :=
  match l with
  | [] => Raise (ValueError "max() arg is an empty sequence")
  | x :: l' => Ok (foldl Z.max x l')
  end.

(** A lower bound of the set, for the termination measure only. *)
Definition lower (dset : gset Z) : Z := foldr Z.min 0 (elements dset).

(** [while d in dset: cur_streak += 1; d = d - timedelta(days=1)].
    Each iteration moves [d] one day towards the lower bound of [dset]. *)
Equations? count_back (dset : gset Z) (d cur_streak : Z) : Z
  by wf (Z.to_nat (d - lower dset + 1)) lt :=
count_back dset d cur_streak with decide (d ∈ dset) := {
  | left _ => count_back dset (d - 1) (cur_streak + 1)
  | right _ => cur_streak }.
Proof.
  assert (lower dset ≤ d); [|lia].
  unfold lower. apply elem_of_elements in e.
  induction (elements dset) as [|x l IH]; simpl.
  - inversion e.
  - apply elem_of_cons in e as [->|e]; [lia|]. specialize (IH e). lia.
Defined.

Definition calc_streaks (utcnow : Z) (df_logs : Frame) (hid : option Z)
  : result (Z * Z) :=
  if empty df_logs then Ok (0, 0) else
  let df := select (tz_localize_None df_logs) hid in
  let days := days_of df in
  match days with
  | [] => Ok (0, 0)
  | _ =>
      let '(streak, best, prev) := walk days in
      let today := date utcnow in
      let dset : gset Z := list_to_set days in
      d ← py_max days;
      Ok (count_back dset d 0, best)
  end.

End Streaks.
Export Streaks.

(** ** weekly_counts *)

Module Counts.

(** [pd.date_range(start=start, periods=periods, freq='D')] *)
Definition date_range (start : Z) (periods : nat) : list Z :=
  (λ i, start + Z.of_nat i * NS_PER_DAY) <$> seq 0 periods.

(** Number of rows whose timestamp falls on day [d]. *)
Definition count_on (d : Z) (rs : list Row) : Z :=
  Z.of_nat (length (filter (λ r, date (ts r) = d) rs)).

(** [df.set_index('ts').groupby(pd.Grouper(freq='D')).size()]: one bin per
    calendar day from the earliest to the latest day present, labelled by
    the day's midnight, with the number of rows in the bin (empty bins
    included).  The index keeps the zone of the [ts] column. *)
Definition groupby_day_size (df : Frame) : Series :=
  let ds := (λ r, date (ts r)) <$> rows df in
  {| index := DatetimeIndex (ts_tz df);
     items :=
       match ds with
       | [] => []
       | d0 :: ds' =>
           let lo := foldl Z.min d0 ds' in
           let hi := foldl Z.max d0 ds' in
           (λ i, let d := lo + Z.of_nat i in
                 (d * NS_PER_DAY, count_on d (rows df)))
             <$> seq 0 (Z.to_nat (hi - lo + 1))
       end |}.

(** Can labels of the two indexes be compared?  pandas never matches a
    tz-naive datetime index against a tz-aware one ([_should_compare]). *)
Definition comparable (i : Index) (tz : tzinfo) : bool :=
  match i with
  | DatetimeIndex tz' => bool_decide (tz' = tz)
  | DefaultIndex => false
  end.

(** Value stored under label [t], if any. *)
Fixpoint get (t : Z) (its : list (Z * Z)) : option Z :=
  match its with
  | [] => None
  | (t', v) :: its' => if bool_decide (t' = t) then Some v else get t its'
  end.

(** [s.reindex(idx, fill_value=fill_value)] for a datetime index [idx] of
    zone [tz]: refuses a source with duplicate labels; otherwise each label
    of [idx] takes the source value under the same label, or [fill_value]
    when there is none, which is the case for every label when the two
    indexes are not comparable. *)
Definition reindex (s : Series) (tz : tzinfo) (idx : list Z) (fill_value : Z)
  : result Series :=
  if decide (NoDup (items s).*1) then
    Ok {| index := DatetimeIndex tz;
          items :=
            (λ t, (t, if comparable (index s) tz
                      then default fill_value (get t (items s))
                      else fill_value)) <$> idx |}
  else Raise (ValueError "cannot reindex on an axis with duplicate labels").

(** [s.index = s.index.normalize()] *)
Definition normalize_index (s : Series) : Series :=
  {| index := index s;
     items := (λ p, (normalize p.1, p.2)) <$> items s |}.

(** [pd.Timestamp.utcnow()] is tz-aware (UTC), so [start], [rng] and [idx]
    are tz-aware too.  [days] is a number of days (the callers pass 28 and
    30). *)
Definition weekly_counts (utcnow : Z) (df_logs : Frame) (days : nat)
  : result Series :=
  if empty df_logs then Ok {| index := DefaultIndex; items := [] |} else
  let df := df_logs in
  let start := utcnow - Z.of_nat days * NS_PER_DAY in
  let rng := date_range (normalize start) (days + 1) in
  let idx := rng in
  s ← reindex (groupby_day_size df) UTC idx 0;
  Ok (normalize_index s).

End Counts.
Export Counts.

(** ** Python datetimes, their ISO texts, and the parse of a [ts] column *)

Module Datetimes.

Local Open Scope N_scope.

(** A naive [datetime.datetime], as [datetime.utcnow()] returns it. *)
Record datetime : Type := mkDatetime {
  year : N; month : N; day : N;
  hour : N; minute : N; second : N; microsecond : N }.

Definition is_leap (y : N) : bool :=
  (y mod 4 =? 0) && (negb (y mod 100 =? 0) || (y mod 400 =? 0)).

Definition days_in_month (y m : N) : N :=
  if m =? 2 then (if is_leap y then 29 else 28)
  else if (m =? 4) || (m =? 6) || (m =? 9) || (m =? 11) then 30
  else 31.

(** The field ranges of a [datetime] object ([MINYEAR] is 1 and [MAXYEAR]
    is 9999). *)
Definition valid_datetime (dt : datetime) : Prop :=
  1 ≤ year dt ≤ 9999 ∧ 1 ≤ month dt ≤ 12 ∧
  1 ≤ day dt ≤ days_in_month (year dt) (month dt) ∧
  hour dt < 24 ∧ minute dt < 60 ∧ second dt < 60 ∧ microsecond dt < 1000000.

Global Instance valid_datetime_dec dt : Decision (valid_datetime dt).
Proof. unfold valid_datetime. apply _. Defined.

(** Comparison of naive datetimes, as Python does it: field by field, from
    the year down to the microsecond. *)
Definition lex (c k : comparison) : comparison :=
  match c with Eq => k | _ => c end.

Definition datetime_compare (a b : datetime) : comparison :=
  lex (year a ?= year b) (lex (month a ?= month b) (lex (day a ?= day b)
    (lex (hour a ?= hour b) (lex (minute a ?= minute b)
      (lex (second a ?= second b) (microsecond a ?= microsecond b)))))).

(** [a <= b] *)
Definition datetime_le (a b : datetime) : Prop := datetime_compare a b ≠ Gt.

(** The decimal digit of [n mod 10]. *)
Definition digit (n : N) : Ascii.ascii := Ascii.ascii_of_N (48 + n mod 10).

(** [n] written with [w] digits and leading zeros ([%0wd]), in front of
    [rest]. *)
Fixpoint digits (w : nat) (n : N) (rest : string) : string :=
  match w with
  | O => rest
  | S w' => digits w' (n / 10) (String (digit n) rest)
  end.

(** [dt.isoformat(sep)]: [YYYY-MM-DD], [sep], [HH:MM:SS], and [.ffffff]
    unless the microsecond is 0.  [sep] is ['T'] unless given; [str(dt)] is
    [dt.isoformat(' ')]. *)
Definition isoformat (sep : Ascii.ascii) (dt : datetime) : string :=
  digits 4 (year dt) (String "-"%char (
  digits 2 (month dt) (String "-"%char (
  digits 2 (day dt) (String sep (
  digits 2 (hour dt) (String ":"%char (
  digits 2 (minute dt) (String ":"%char (
  digits 2 (second dt) (
  if microsecond dt =? 0 then EmptyString
  else String "."%char (digits 6 (microsecond dt) EmptyString)))))))))))).
Arguments isoformat sep%_char dt.


(** The instants a [datetime64[ns]] cell can hold ([Timestamp.min] to
    [Timestamp.max]; the smallest 64-bit integer stands for [NaT]). *)
Definition in_bounds (t : Z) : Prop := (- INT64_MAX ≤ t ≤ INT64_MAX)%Z.

Global Instance in_bounds_dec t : Decision (in_bounds t).
Proof. unfold in_bounds. apply _. Defined.








End Datetimes.
Export Datetimes.

(** ** Storage accessor *)

Module Storage.

Local Open Scope string_scope.

Record Habit : Type := mkHabit {
  h_id : Z;
  h_name : string;
  h_category : string;
  h_target : Z;
  h_color : string;
  h_created_at : string }.

Record Log : Type := mkLog {
  l_id : Z;
  l_habit_id : Z;
  l_ts : string;
  l_note : option string }.

(** The connection and the database behind it: the two tables in insertion
    order, the [sqlite_sequence] counter of each AUTOINCREMENT key, and the
    connection's [foreign_keys] pragma. *)
Record Conn : Type := mkConn {
  foreign_keys : bool;
  habits : list Habit;
  habits_seq : Z;
  logs : list Log;
  logs_seq : Z }.

(** [get_conn] on a fresh file followed by [init_db]: [sqlite3.connect]
    leaves [PRAGMA foreign_keys] at its default, off, and nothing in the
    program turns it on. *)
Definition init_db : Conn :=
  {| foreign_keys := false;
     habits := []; habits_seq := 0;
     logs := []; logs_seq := 0 |}.

(** INTEGER PRIMARY KEY AUTOINCREMENT: one more than the largest key the
    table has ever held. *)
Definition next_rowid (seq : Z) (ids : list Z) : Z :=
  foldl Z.max seq ids + 1.

(** What a Python call hands back: an integer, or [None] when the function
    body ends without a [return]. *)
Definition py_value : Type := option Z.

(** [add_habit].  [target] is bound as an INTEGER; the one caller, the habit
    form, passes the value of its number input, between 1 and 20. *)
Definition add_habit (conn : Conn) (utcnow_iso : string)
    (name category : string) (target : Z) (color : string)
  : py_value * Conn :=
  let rowid := next_rowid (habits_seq conn) (h_id <$> habits conn) in
  (None,
   {| foreign_keys := foreign_keys conn;
      habits := habits conn
                  ++ [mkHabit rowid name category target color utcnow_iso];
      habits_seq := rowid;
      logs := logs conn;
      logs_seq := logs_seq conn |}).

(** [a] may come before [b] under [ORDER BY id DESC]. *)
Definition id_desc (a b : Habit) : Prop := (h_id b ≤ h_id a)%Z.

Global Instance id_desc_dec a b : Decision (id_desc a b).
Proof. unfold id_desc. apply _. Defined.

(** [SELECT * FROM habits ORDER BY id DESC] *)
Definition get_habits (conn : Conn) : list Habit :=
  merge_sort id_desc (habits conn).

(** [add_log]: [ts=None] takes the clock reading.  [cur.execute] first
    binds the parameters, which fails for a [habit_id] that does not fit 64
    bits, and then runs the INSERT, which is checked against [habits] only
    when the connection enforces foreign keys. *)
Definition add_log (conn : Conn) (utcnow_iso : string)
    (habit_id : Z) (ts : option string) (note : option string)
  : result (py_value * Conn) :=
  let ts := match ts with None => utcnow_iso | Some t => t end in
  if bool_decide (int64 habit_id) then
    if foreign_keys conn && bool_decide (habit_id ∉ h_id <$> habits conn)
    then Raise (IntegrityError "FOREIGN KEY constraint failed")
    else
      let rowid := next_rowid (logs_seq conn) (l_id <$> logs conn) in
      Ok (None,
          {| foreign_keys := foreign_keys conn;
             habits := habits conn;
             habits_seq := habits_seq conn;
             logs := logs conn ++ [mkLog rowid habit_id ts note];
             logs_seq := rowid |})
  else Raise (OverflowError "Python int too large to convert to SQLite INTEGER").

(** A row of [get_logs]: the log's columns and [h.name as habit_name]
    (NULL when the join finds no habit). *)
Record LogRow : Type := mkLogRow {
  r_id : Z;
  r_habit_id : Z;
  r_ts : string;
  r_note : option string;
  r_habit_name : option string }.

Definition log_row (l : Log) (habit_name : option string) : LogRow :=
  mkLogRow (l_id l) (l_habit_id l) (l_ts l) (l_note l) habit_name.

(** [logs l LEFT JOIN habits h ON h.id = l.habit_id] *)
Definition left_join (ls : list Log) (hs : list Habit) : list LogRow :=
  l ← ls;
  match filter (λ h, h_id h = l_habit_id l) hs with
  | [] => [log_row l None]
  | ms => (λ h, log_row l (Some (h_name h))) <$> ms
  end.

(** Order of TEXT values under SQLite's BINARY collation: bytewise, a
    proper prefix first. *)
Definition text_le (a b : string) : Prop := String.leb a b = true.

Global Instance text_le_dec a b : Decision (text_le a b).
Proof. unfold text_le. apply _. Defined.

(** [a] may come before [b] under [ORDER BY ts DESC]. *)
Definition ts_desc (a b : LogRow) : Prop := text_le (r_ts b) (r_ts a).

Global Instance ts_desc_dec a b : Decision (ts_desc a b).
Proof. unfold ts_desc. apply _. Defined.

(** [ORDER BY ts DESC] as SQLite carries it out: a row goes in front of the
    first row whose [ts] is not larger than its own, so rows with equal [ts]
    stay in the order in which the join produced them. *)
Fixpoint insert_desc (x : LogRow) (l : list LogRow) : list LogRow :=
  match l with
  | [] => [x]
  | y :: l' => if decide (ts_desc x y) then x :: l else y :: insert_desc x l'
  end.

Definition order_by_ts_desc (l : list LogRow) : list LogRow :=
  foldr insert_desc [] l.

(** [SELECT ... FROM logs l LEFT JOIN habits h ON ... ORDER BY ts DESC] *)
Definition get_logs (conn : Conn) : list LogRow :=
  order_by_ts_desc (left_join (logs conn) (habits conn)).

(** *** The habit form *)

(** A Python [str] is held as the bytes of its UTF-8 encoding, which is
    also how SQLite stores and compares TEXT.  [str.isspace] is true of 29
    characters; they are listed here by their encodings.

    One byte: U+0009 to U+000D and U+001C to U+0020. *)
Definition is_space (c : Ascii.ascii) : bool :=
  let n := Ascii.N_of_ascii c in
  ((9 <=? n) && (n <=? 13) || (28 <=? n) && (n <=? 32))%N.

(** Two bytes: U+0085 (C2 85) and U+00A0 (C2 A0). *)
Definition is_space2 (a b : Ascii.ascii) : bool :=
  let x := Ascii.N_of_ascii a in
  let y := Ascii.N_of_ascii b in
  ((x =? 194) && ((y =? 133) || (y =? 160)))%N.

(** Three bytes: U+1680 (E1 9A 80); U+2000 to U+200A (E2 80 80 to 8A),
    U+2028, U+2029 and U+202F (E2 80 A8, A9 and AF); U+205F (E2 81 9F);
    U+3000 (E3 80 80). *)
Definition is_space3 (a b c : Ascii.ascii) : bool :=
  let x := Ascii.N_of_ascii a in
  let y := Ascii.N_of_ascii b in
  let z := Ascii.N_of_ascii c in
  ((x =? 225) && (y =? 154) && (z =? 128)
   || (x =? 226) && (y =? 128)
      && ((128 <=? z) && (z <=? 138) || (z =? 168) || (z =? 169) || (z =? 175))
   || (x =? 226) && (y =? 129) && (z =? 159)
   || (x =? 227) && (y =? 128) && (z =? 128))%N.

(** The string without its first character when that character is white
    space.  With [back] the string is read from its end, so the bytes of a
    character arrive last one first. *)
Definition skip_space (back : bool) (s : string) : option string :=
  match s with
  | String a s1 =>
      if is_space a then Some s1 else
      match s1 with
      | String b s2 =>
          if (if back then is_space2 b a else is_space2 a b) then Some s2 else
          match s2 with
          | String c s3 =>
              if (if back then is_space3 c b a else is_space3 a b c)
              then Some s3 else None
          | EmptyString => None
          end
      | EmptyString => None
      end
  | EmptyString => None
  end.

(** Drop white-space characters from the front for as long as there is
    one. *)
Fixpoint skip_spaces (back : bool) (s : string) : string :=
  match s with
  | String a s1 =>
      if is_space a then skip_spaces back s1 else
      match s1 with
      | String b s2 =>
          if (if back then is_space2 b a else is_space2 a b)
          then skip_spaces back s2 else
          match s2 with
          | String c s3 =>
              if (if back then is_space3 c b a else is_space3 a b c)
              then skip_spaces back s3 else s
          | EmptyString => s
          end
      | EmptyString => s
      end
  | EmptyString => s
  end.

(** [str.lstrip()] *)
Definition lstrip (s : string) : string := skip_spaces false s.

(** [str.rstrip()] *)
Definition rstrip (s : string) : string :=
  String.rev (skip_spaces true (String.rev s)).

(** [str.strip()] *)
Definition strip (s : string) : string := rstrip (lstrip s).

(** What the form shows after a submit. *)
Inductive message : Type :=
| st_error (body : string)
| st_success (body : string).

(** [if submitted:] branch of [form_habit]: the validation of the name and
    the call of [add_habit]. *)
Definition form_habit_submit (conn : Conn) (utcnow_iso : string)
    (name category : string) (target : Z) (color : string)
  : message * Conn :=
  if bool_decide (strip name = EmptyString)
  then (st_error "Nome obrigat√≥rio", conn)
  else
    let '(_, conn') :=
      add_habit conn utcnow_iso (strip name) (strip category) target color in
    (st_success "H√°bito criado", conn').

End Storage.
Export Storage.

(** ** Vocabulary of the specification *)

(** Day [d] carries an entry of the frame, once the optional habit filter
    has been applied. *)
Definition logged_on (df : Frame) (hid : option Z) (d : Z) : Prop :=
  ∃ r, r ∈ rows df ∧ (truthy hid = true → Some (habit_id r) = hid)
       ∧ date (ts r) = d.

(** [k] is the length of the run of consecutive days of [S] that ends on day
    [m]: the [k] days [m], [m - 1], ..., [m - k + 1] are in [S] and day
    [m - k] is the first one missing. *)
Definition run_at (S : Z → Prop) (m k : Z) : Prop :=
  0 ≤ k ∧ (∀ i, 0 ≤ i < k → S (m - i)) ∧ ¬ S (m - k).



(** What the forward walk of [calc_streaks] has established after the days
    in [l]. *)
Definition walk_inv (l : list Z) (st : Z * Z * option Z) : Prop :=
  let '(streak, best, prev) := st in
  prev = last l ∧
  (l = [] → streak = 0 ∧ best = 0) ∧
  (∀ m, last l = Some m →
     (∀ y, y ∈ l → y ≤ m) ∧
     run_at (.∈ l) m streak ∧ 1 ≤ streak ∧
     (∀ d k, d ∈ l → run_at (.∈ l) d k → k ≤ best) ∧
     (∃ d, d ∈ l ∧ run_at (.∈ l) d best)).

(** The connections the program can hold: the fresh database and whatever
    [add_habit] and [add_log] make of it.  A key is an SQLite INTEGER, so a
    table only grows while its next key fits 64 bits. *)
Inductive reachable : Conn → Prop :=
| reach_init : reachable init_db
| reach_add_habit conn now name category target color :
    reachable conn →
    int64 (next_rowid (habits_seq conn) (h_id <$> habits conn)) →
    reachable (add_habit conn now name category target color).2
| reach_add_log conn now hid ts note ret conn' :
    reachable conn →
    add_log conn now hid ts note = Ok (ret, conn') →
    reachable conn'.








(** A name of white space beyond ASCII: a no-break space (U+00A0), an em
    space (U+2003) and an ideographic space (U+3000). *)
Definition wide_blank : string :=
  String.string_of_list_ascii
    (Ascii.ascii_of_N <$> [194; 160; 226; 128; 131; 227; 128; 128]%N).



(** Clock readings and entries used in the worked examples. *)
Definition now_2024_01_09 : Z := at_time (ymd 2024 1 9) 8 0 0.

Definition gap_frame : Frame :=
  mkFrame Naive [ mkRow 1 (at_time (ymd 2024 1 4) 7 30 0);
                  mkRow 1 (at_time (ymd 2024 1 2) 23 59 59);
                  mkRow 1 (at_time (ymd 2024 1 1) 0 0 0) ].


(** ** The log form and the quick buttons *)

Module Forms.
Local Open Scope string_scope.

(** A Python [dict] with string keys and integer values, in insertion
    order. *)
Definition dict : Type := list (string * Z).

(** [d[k] = v]: a key already present keeps its place and takes the new
    value; a new key goes to the end. *)
Fixpoint dict_set (k : string) (v : Z) (d : dict) : dict :=
  match d with
  | [] => [(k, v)]
  | (k', v') :: d' =>
      if bool_decide (k' = k) then (k, v) :: d' else (k', v') :: dict_set k v d'
  end.

(** [d[k]]: [None] stands for the [KeyError] of a missing key. *)
Fixpoint dict_get (k : string) (d : dict) : option Z :=
  match d with
  | [] => None
  | (k', v) :: d' => if bool_decide (k' = k) then Some v else dict_get k d'
  end.

(** [list(d.keys())] *)
Definition dict_keys (d : dict) : list string := d.*1.

(** [{row['name']: row['id'] for _, row in df_h.iterrows()}] *)
Definition h_opt (df_h : list Habit) : dict :=
  foldl (λ d row, dict_set (h_name row) (h_id row) d) [] df_h.

(** What a submit of [log_form] leads to. *)
Inductive log_outcome : Type :=
| no_form                              (* [df_h.empty]: only [st.info] *)
| key_error (k : string)               (* [h_opt[habit_sel]] raised *)
| db_error (e : exn)                   (* [add_log] raised *)
| registered (m : message) (conn : Conn).

(** The [log_form] block with "Registrar agora" pressed, [habit_sel] being
    the value of the select box. *)
Definition log_form_submit (conn : Conn) (utcnow_iso : string)
    (habit_sel note : string) : log_outcome :=
  let df_h := get_habits conn in
  match df_h with
  | [] => no_form
  | _ =>
      match dict_get habit_sel (h_opt df_h) with
      | None => key_error habit_sel
      | Some i =>
          match add_log conn utcnow_iso i (Some utcnow_iso) (Some note) with
          | Raise e => db_error e
          | Ok (_, conn') => registered (st_success "Registrado ‚úÖ") conn'
          end
      end
  end.

(** The "+1" button of the [i]-th habit of the list: [add_log(r['id'])].
    [None] when the list has no such row, hence no such button. *)
Definition quick_log (conn : Conn) (utcnow_iso : string) (i : nat)
  : option (result (py_value * Conn)) :=
  r ← get_habits conn !! i;
  Some (add_log conn utcnow_iso (h_id r) None None).

(** The connections the pages of the program can produce: the habit form,
    the log form and the "+1" buttons are the only writers. *)
Inductive ui_reachable : Conn → Prop :=
| ui_init : ui_reachable init_db
| ui_form_habit conn now name category target color :
    ui_reachable conn →
    ui_reachable (form_habit_submit conn now name category target color).2
| ui_log_form conn now habit_sel note m conn' :
    ui_reachable conn →
    log_form_submit conn now habit_sel note = registered m conn' →
    ui_reachable conn'
| ui_quick_log conn now i ret conn' :
    ui_reachable conn →
    quick_log conn now i = Some (Ok (ret, conn')) →
    ui_reachable conn'.

End Forms.
Export Forms.

(** The keys [1 .. n], as AUTOINCREMENT hands them out. *)
Definition first_ids (n : nat) : list Z := (λ i, Z.of_nat i + 1) <$> seq 0 n.

(** [df] with one more row. *)
Definition with_row (r : Row) (df : Frame) : Frame :=
  {| ts_tz := ts_tz df; rows := r :: rows df |}.

(** [(cur, best)] are the streaks of the set of days [S]: both 0 when [S]
    is empty; otherwise [cur] is the run ending on the latest day of [S] and
    [best] is the longest run ending on any day of [S]. *)
Definition is_streaks (S : Z → Prop) (cur best : Z) : Prop :=
  ((∀ d, ¬ S d) ∧ cur = 0 ∧ best = 0) ∨
  (∃ m, S m ∧ (∀ d, S d → d ≤ m) ∧ run_at S m cur ∧ 1 ≤ cur ∧
        (∀ d k, S d → run_at S d k → k ≤ best) ∧
        (∃ d, S d ∧ run_at S d best)).

(** Does row [r] pass the habit filter? *)
Definition passes (hid : option Z) (r : Row) : Prop :=
  truthy hid = true → Some (habit_id r) = hid.

(** Connections and frames used in the worked examples: three habits made
    through the form, two of them named "Run", then one entry made through
    the log form. *)
Definition ui_example : Conn :=
  (form_habit_submit
     (form_habit_submit
        (form_habit_submit init_db
           "2024-01-01T09:00:00" " Run " "health" 1 "#7c3aed").2
        "2024-01-02T09:00:00" "Run" "sport" 2 "#06b6d4").2
     "2024-01-03T09:00:00" "Read" EmptyString 1 "#7c3aed").2.

Definition ui_example_logged : Conn :=
  match log_form_submit ui_example "2024-01-09T08:00:00" "Run" "5 km" with
  | registered _ conn' => conn'
  | _ => ui_example
  end.

(** * Facts about lists *)

Section list_facts.

Lemma filter_none {A} (P : A → Prop) `{∀ x, Decision (P x)} (l : list A) :
  (∀ x, x ∈ l → ¬ P x) → filter P l = [].
Proof.
  induction l as [|a l IH]; intros Hno; [done|].
  rewrite filter_cons_False by (apply Hno; by left).
  apply IH. intros x Hx. apply Hno. by right.
Qed.

Lemma foldl_max_spec (l : list Z) : ∀ x,
  (foldl Z.max x l = x ∨ foldl Z.max x l ∈ l) ∧
  x ≤ foldl Z.max x l ∧ ∀ y, y ∈ l → y ≤ foldl Z.max x l.
Proof.
  induction l as [|a l IH]; intros x; simpl.
  - split; [by left|]. split; [lia|]. by intros y ?%elem_of_nil.
  - destruct (IH (Z.max x a)) as (Hin & Hle & Hub).
    split; [|split].
    + destruct Hin as [Heq|Hin]; [|right; by right].
      rewrite Heq. destruct (Z.max_spec x a) as [[_ ->]|[_ ->]];
        [right; by left|by left].
    + lia.
    + intros y [->|Hy]%elem_of_cons; [lia|auto].
Qed.

Lemma foldl_min_spec (l : list Z) : ∀ x,
  foldl Z.min x l ≤ x ∧ ∀ y, y ∈ l → foldl Z.min x l ≤ y.
Proof.
  induction l as [|a l IH]; intros x; simpl.
  - split; [lia|]. by intros y ?%elem_of_nil.
  - destruct (IH (Z.min x a)) as (Hle & Hlb). split; [lia|].
    intros y [->|Hy]%elem_of_cons; [lia|auto].
Qed.



End list_facts.

(** * Facts about [calc_streaks] *)

Section streak_facts.

(** Membership in a list written with [++], [::] and singletons. *)
Local Ltac in_list :=
  simpl; rewrite ?elem_of_app, ?elem_of_cons, ?list_elem_of_singleton; auto.

Lemma run_at_unique S m k k' : run_at S m k → run_at S m k' → k = k'.
Proof.
  intros (Hk & Hin & Hout) (Hk' & Hin' & Hout').
  destruct (Z.lt_trichotomy k k') as [Hlt | [-> | Hgt]]; [|done|].
  - destruct Hout. apply Hin'. lia.
  - destruct Hout'. apply Hin. lia.
Qed.

Lemma run_at_ext (S T : Z → Prop) m k :
  (∀ d, d ≤ m → (S d ↔ T d)) → run_at S m k → run_at T m k.
Proof.
  intros HST (Hk & Hin & Hout). split; [done|]. split.
  - intros i Hi. apply HST; [lia|]. by apply Hin.
  - intros HT. apply Hout, HST; [lia|done].
Qed.

Lemma count_back_unfold dset d c :
  count_back dset d c =
  if decide (d ∈ dset) then count_back dset (d - 1) (c + 1) else c.
Proof. rewrite count_back_equation_1. by destruct (decide (d ∈ dset)). Qed.

Lemma count_back_run dset (n : nat) : ∀ d c,
  (∀ i, 0 ≤ i < Z.of_nat n → d - i ∈ dset) → d - Z.of_nat n ∉ dset →
  count_back dset d c = c + Z.of_nat n.
Proof.
  induction n as [|n IH]; intros d c Hin Hout; rewrite count_back_unfold.
  - rewrite decide_False; [lia|]. simpl in Hout. by rewrite Z.sub_0_r in Hout.
  - rewrite decide_True.
    + rewrite IH; [lia| |].
      * intros i Hi. replace (d - 1 - i) with (d - (i + 1)) by lia.
        apply Hin. lia.
      * by replace (d - 1 - Z.of_nat n) with (d - Z.of_nat (S n)) by lia.
    + replace d with (d - 0) by lia. apply Hin. lia.
Qed.

Lemma count_back_spec dset d k c :
  run_at (.∈ dset) d k → count_back dset d c = c + k.
Proof.
  intros (Hk & Hin & Hout).
  rewrite <- (Z2Nat.id k) by done. apply count_back_run.
  - intros i Hi. apply Hin. lia.
  - by rewrite Z2Nat.id.
Qed.

Lemma run_at_singleton x : run_at (.∈ [x]) x 1.
Proof.
  split; [lia|]. split.
  - intros i Hi. replace (x - i) with x by lia. in_list.
  - rewrite list_elem_of_singleton. lia.
Qed.

Lemma run_at_snoc_old l x d k :
  (∀ y, y ∈ l → y < x) → d ∈ l →
  run_at (.∈ l ++ [x]) d k ↔ run_at (.∈ l) d k.
Proof.
  intros Hlt Hd. specialize (Hlt d Hd).
  split; apply run_at_ext; intros y Hy;
    rewrite elem_of_app, list_elem_of_singleton; split; auto; try lia;
    intros [?|?]; auto; lia.
Qed.

Lemma walk_spec l : StronglySorted Z.lt l → walk_inv l (walk l).
Proof.
  unfold walk. induction l as [|x l IH] using rev_ind; intros Hs.
  - simpl. repeat split; try done.
  - apply StronglySorted_app in Hs as (Hlx & Hl & _).
    assert (Hlt : ∀ y, y ∈ l → y < x).
    { intros y Hy. apply Hlx; [done|]. in_list. }
    specialize (IH Hl). rewrite foldl_snoc.
    destruct (foldl walk_step (0, 0, None) l) as [[s b] prev].
    destruct IH as (Hprev & Hnil & Hlast).
    unfold walk_step, walk_inv. rewrite last_snoc.
    split; [done|]. split; [by intros ?%app_eq_nil%proj2|].
    intros m [= <-].
    assert (Hub : ∀ y, y ∈ l ++ [x] → y ≤ x).
    { intros y [Hy%Hlt| ->%list_elem_of_singleton]%elem_of_app; lia. }
    split; [done|].
    destruct (last l) as [m|] eqn:Hm.
    + subst prev. destruct (Hlast m eq_refl) as (Hle & Hrun & Hs1 & Hmax & Hwit).
      assert (Hml : m ∈ l).
      { apply last_Some in Hm as [l' ->]. in_list. }
      assert (Hmx : m < x) by auto.
      assert (Hrunx : run_at (.∈ l ++ [x]) x
                (if bool_decide (x = m + 1) then s + 1 else 1)).
      { case_bool_decide as Hx.
        - destruct Hrun as (_ & Hin & Hout). split; [lia|]. split.
          + intros i Hi. destruct (decide (i = 0)) as [->|Hi0].
            * rewrite Z.sub_0_r. in_list.
            * replace (x - i) with (m - (i - 1)) by lia.
              apply elem_of_app. left. apply Hin. lia.
          + replace (x - (s + 1)) with (m - s) by lia.
            rewrite elem_of_app, list_elem_of_singleton.
            intros [?|?]; [done|lia].
        - split; [lia|]. split.
          + intros i Hi. replace (x - i) with x by lia. in_list.
          + rewrite elem_of_app, list_elem_of_singleton.
            intros [Hy%Hle|?]; lia. }
      split; [done|]. split; [case_bool_decide; lia|]. split.
      * intros d k [Hd| ->%list_elem_of_singleton]%elem_of_app Hk.
        -- apply run_at_snoc_old in Hk; [|done..].
           specialize (Hmax d k Hd Hk). lia.
        -- rewrite (run_at_unique _ _ _ _ Hk Hrunx). lia.
      * destruct Hwit as (d & Hd & Hdb).
        destruct (Z.max_spec b (if bool_decide (x = m + 1) then s + 1 else 1))
          as [[_ ->]|[_ ->]].
        -- exists x. split; [in_list|done].
        -- exists d. split; [in_list|]. by apply run_at_snoc_old.
    + subst prev. apply last_None in Hm as ->.
      destruct (Hnil eq_refl) as [-> ->]. simpl.
      split; [apply run_at_singleton|]. split; [lia|]. split.
      * intros d k ->%list_elem_of_singleton Hk.
        rewrite (run_at_unique _ _ _ _ Hk (run_at_singleton x)). lia.
      * exists x. split; [in_list|apply run_at_singleton].
Qed.

Lemma StronglySorted_le_lt (l : list Z) :
  StronglySorted Z.le l → NoDup l → StronglySorted Z.lt l.
Proof.
  induction 1 as [|x l Hl IH Hx]; intros Hnd; [constructor|].
  apply NoDup_cons in Hnd as [Hxl Hnd].
  constructor; [auto|].
  rewrite Forall_forall in Hx |- *. intros y Hy.
  specialize (Hx y Hy). assert (x ≠ y) by (by intros ->). lia.
Qed.

Lemma days_of_sorted df : StronglySorted Z.lt (days_of df).
Proof.
  unfold days_of. apply StronglySorted_le_lt.
  - apply (StronglySorted_merge_sort Z.le).
  - rewrite merge_sort_Permutation. apply NoDup_elements.
Qed.

Lemma elem_of_days_of df d :
  d ∈ days_of df ↔ ∃ r, r ∈ rows df ∧ date (ts r) = d.
Proof.
  unfold days_of.
  rewrite merge_sort_Permutation, elem_of_elements, elem_of_list_to_set,
    list_elem_of_fmap.
  split; intros (r & ? & ?); eauto.
Qed.

Lemma elem_of_days_of_select df hid d :
  d ∈ days_of (select (tz_localize_None df) hid) ↔ logged_on df hid d.
Proof.
  rewrite elem_of_days_of. unfold logged_on, select.
  destruct (truthy hid) eqn:Ht; simpl.
  - setoid_rewrite list_elem_of_filter. split.
    + intros (r & [Hp Hr] & Hd). exists r. auto.
    + intros (r & Hr & Hp & Hd). exists r. auto.
  - split.
    + intros (r & Hr & Hd). exists r. split; [done|]. by split.
    + intros (r & Hr & _ & Hd). eauto.
Qed.

Lemma py_max_spec (l : list Z) m :
  m ∈ l → (∀ y, y ∈ l → y ≤ m) → py_max l = Ok m.
Proof.
  destruct l as [|x l]; [by intros ?%elem_of_nil|].
  intros Hm Hub. simpl. f_equal.
  destruct (foldl_max_spec l x) as (Hin & Hle & Hub').
  assert (foldl Z.max x l ∈ x :: l) as Hr.
  { destruct Hin as [->|?]; [by left|by right]. }
  apply Hub in Hr.
  apply elem_of_cons in Hm as [->|Hm]; [lia|]. apply Hub' in Hm. lia.
Qed.

(** The result of [calc_streaks], in terms of the days logged. *)
Lemma calc_streaks_char utcnow df hid :
  ((∀ d, ¬ logged_on df hid d) ∧ calc_streaks utcnow df hid = Ok (0, 0)) ∨
  (∃ m cur best,
     calc_streaks utcnow df hid = Ok (cur, best) ∧
     logged_on df hid m ∧ (∀ d, logged_on df hid d → d ≤ m) ∧
     run_at (logged_on df hid) m cur ∧ 1 ≤ cur ∧
     (∀ d k, logged_on df hid d → run_at (logged_on df hid) d k → k ≤ best) ∧
     (∃ d, logged_on df hid d ∧ run_at (logged_on df hid) d best)).
Proof.
  unfold calc_streaks.
  destruct (empty df) eqn:He.
  { left. split; [|done]. intros d (r & Hr & _).
    unfold empty in He. destruct (rows df); [by apply elem_of_nil in Hr|done]. }
  pose proof (days_of_sorted (select (tz_localize_None df) hid)) as Hs.
  pose proof (elem_of_days_of_select df hid) as Hel.
  apply walk_spec in Hs.
  destruct (days_of (select (tz_localize_None df) hid)) as [|d0 l] eqn:HD.
  { left. split; [|done]. intros d Hd%Hel. by apply elem_of_nil in Hd. }
  rewrite <- HD in *. right.
  destruct (walk _) as [[s b] prev].
  destruct Hs as (_ & _ & Hlast).
  destruct (last (days_of (select (tz_localize_None df) hid))) as [m|] eqn:Hm;
    [|apply last_None in Hm; congruence].
  destruct (Hlast m eq_refl) as (Hub & Hrun & Hs1 & Hmax & d & Hd & Hdb).
  assert (Hml : m ∈ days_of (select (tz_localize_None df) hid)).
  { apply last_Some in Hm as [l' ->]. apply elem_of_app. right. by left. }
  assert (Hext : ∀ x k, run_at (.∈ days_of (select (tz_localize_None df) hid)) x k
                       ↔ run_at (logged_on df hid) x k).
  { intros x k. split; apply run_at_ext; intros y _; by rewrite Hel. }
  exists m, s, b.
  rewrite (py_max_spec _ m Hml Hub). simpl.
  rewrite (count_back_spec _ m s 0).
  2:{ eapply run_at_ext; [|exact Hrun]. intros y _.
      by rewrite elem_of_list_to_set. }
  split; [done|]. split; [by apply Hel|].
  split; [intros y Hy%Hel; auto|].
  split; [by apply Hext|]. split; [done|]. split.
  - intros x k Hx%Hel Hk%Hext. eauto.
  - exists d. split; [by apply Hel|by apply Hext].
Qed.

End streak_facts.

(** * Facts about [weekly_counts] *)

Section counts_facts.

Lemma NS_PER_DAY_pos : 0 < NS_PER_DAY.
Proof. reflexivity. Qed.

Lemma date_midnight d : date (d * NS_PER_DAY) = d.
Proof. unfold date. apply Z.div_mul. pose proof NS_PER_DAY_pos. lia. Qed.

Lemma date_shift t n : date (t + n * NS_PER_DAY) = date t + n.
Proof. unfold date. apply Z.div_add. pose proof NS_PER_DAY_pos. lia. Qed.

Lemma normalize_midnight d : normalize (d * NS_PER_DAY) = d * NS_PER_DAY.
Proof. unfold normalize. by rewrite date_midnight. Qed.

(** The labels of the window: midnight of each of the [days + 1] days that
    end on the day of [utcnow]. *)
Lemma window_labels utcnow (days : nat) :
  date_range (normalize (utcnow - Z.of_nat days * NS_PER_DAY)) (days + 1) =
  (λ i, (date utcnow - Z.of_nat days + Z.of_nat i) * NS_PER_DAY)
    <$> seq 0 (days + 1).
Proof.
  unfold date_range, normalize.
  replace (utcnow - Z.of_nat days * NS_PER_DAY)
    with (utcnow + (- Z.of_nat days) * NS_PER_DAY) by lia.
  rewrite date_shift. apply list_fmap_ext. intros _ i _. lia.
Qed.

Lemma groupby_labels_NoDup df : NoDup (items (groupby_day_size df)).*1.
Proof.
  unfold groupby_day_size. simpl.
  destruct (_ <$> rows df) as [|d0 ds]; [constructor|].
  rewrite <- list_fmap_compose.
  apply NoDup_fmap_2_strong; [|apply NoDup_seq].
  intros i j _ _. simpl. pose proof NS_PER_DAY_pos. nia.
Qed.

Lemma get_day_bins (g : Z → Z) lo d (n : nat) : ∀ a : nat,
  get (d * NS_PER_DAY)
    ((λ i, ((lo + Z.of_nat i) * NS_PER_DAY, g (lo + Z.of_nat i)))
       <$> seq a n) =
  if bool_decide (lo + Z.of_nat a ≤ d < lo + Z.of_nat a + Z.of_nat n)
  then Some (g d) else None.
Proof.
  pose proof NS_PER_DAY_pos as Hpos.
  induction n as [|n IH]; intros a; simpl.
  - rewrite bool_decide_eq_false_2; [done|lia].
  - case_bool_decide as Heq.
    + assert (d = lo + Z.of_nat a) as -> by nia.
      rewrite bool_decide_eq_true_2; [done|lia].
    + rewrite IH. assert (d ≠ lo + Z.of_nat a) by (intros ->; done).
      repeat case_bool_decide; try done; lia.
Qed.

Lemma count_on_absent d (rs : list Row) :
  (∀ r, r ∈ rs → date (ts r) ≠ d) → count_on d rs = 0.
Proof. intros Hne. unfold count_on. by rewrite filter_none. Qed.

(** Looking a day up in the grouped series gives the number of rows on that
    day, or nothing when the day lies outside the days present. *)
Lemma groupby_get df d :
  default 0 (get (d * NS_PER_DAY) (items (groupby_day_size df))) =
  count_on d (rows df).
Proof.
  unfold groupby_day_size. simpl.
  destruct ((λ r, date (ts r)) <$> rows df) as [|d0 ds] eqn:Hds.
  { simpl. destruct (rows df); [done|discriminate]. }
  destruct (foldl_min_spec ds d0) as (Hlo0 & Hlo).
  destruct (foldl_max_spec ds d0) as (_ & Hhi0 & Hhi).
  rewrite (get_day_bins (λ x, count_on x (rows df))).
  case_bool_decide as Hd; [done|]. simpl. symmetry.
  apply count_on_absent. intros r Hr Hrd.
  assert (date (ts r) ∈ d0 :: ds) as Hin.
  { rewrite <- Hds. apply list_elem_of_fmap. eauto. }
  rewrite Hrd in Hin. apply elem_of_cons in Hin as [Heq|Hin].
  - lia.
  - specialize (Hlo _ Hin). specialize (Hhi _ Hin). lia.
Qed.

Lemma weekly_counts_nonempty utcnow df (days : nat) :
  empty df = false →
  weekly_counts utcnow df days =
  Ok {| index := DatetimeIndex UTC;
        items :=
          (λ i, let d := date utcnow - Z.of_nat days + Z.of_nat i in
                (d * NS_PER_DAY,
                 if bool_decide (ts_tz df = UTC) then count_on d (rows df)
                 else 0))
            <$> seq 0 (days + 1) |}.
Proof.
  intros He. unfold weekly_counts. rewrite He, window_labels.
  unfold reindex. rewrite decide_True by apply groupby_labels_NoDup.
  simpl. unfold normalize_index. simpl. f_equal. f_equal.
  rewrite <- !list_fmap_compose. apply list_fmap_ext. intros _ i _. simpl.
  rewrite normalize_midnight. f_equal.
  case_bool_decide; [|done]. apply groupby_get.
Qed.

End counts_facts.

(** * Facts about the storage accessor *)

Section storage_facts.

Global Instance text_le_total : Total text_le.
Proof. intros a b. apply String.leb_total. Qed.

Lemma ascii_compare_cases x y :
  match Ascii.compare x y with
  | Eq => x = y
  | Lt => (Ascii.N_of_ascii x < Ascii.N_of_ascii y)%N
  | Gt => (Ascii.N_of_ascii y < Ascii.N_of_ascii x)%N
  end.
Proof.
  destruct (Ascii.compare x y) eqn:H.
  - by apply Ascii.compare_eq_iff.
  - by apply N.compare_lt_iff.
  - by apply N.compare_gt_iff.
Qed.

Global Instance text_le_trans : Transitive text_le.
Proof.
  unfold text_le, String.leb. intros a.
  induction a as [|x a IH]; intros [|y b] [|z c]; simpl; try done.
  pose proof (ascii_compare_cases x y) as Hxy.
  pose proof (ascii_compare_cases y z) as Hyz.
  pose proof (ascii_compare_cases x z) as Hxz.
  specialize (IH b c).
  destruct (Ascii.compare x y), (Ascii.compare y z), (Ascii.compare x z);
    subst; try done; try lia; auto.
Qed.

Global Instance id_desc_total : Total id_desc.
Proof. intros a b. unfold id_desc. lia. Qed.

Global Instance id_desc_trans : Transitive id_desc.
Proof. intros a b c. unfold id_desc. lia. Qed.

Global Instance ts_desc_total : Total ts_desc.
Proof.
  intros a b. unfold ts_desc.
  destruct (total text_le (r_ts a) (r_ts b)); auto.
Qed.

Global Instance ts_desc_trans : Transitive ts_desc.
Proof. intros a b c ??. unfold ts_desc in *. by etrans. Qed.

Lemma insert_desc_Permutation x l : insert_desc x l ≡ₚ x :: l.
Proof.
  induction l as [|y l IH]; simpl; [done|].
  case_decide; [done|]. by rewrite IH, Permutation_swap.
Qed.

Lemma order_by_ts_desc_Permutation l : order_by_ts_desc l ≡ₚ l.
Proof.
  induction l as [|x l IH]; simpl; [done|].
  by rewrite insert_desc_Permutation, IH.
Qed.





Lemma elem_of_get_logs conn row :
  row ∈ get_logs conn ↔ row ∈ left_join (logs conn) (habits conn).
Proof. unfold get_logs. by rewrite order_by_ts_desc_Permutation. Qed.

Lemma elem_of_left_join row ls hs :
  row ∈ left_join ls hs ↔
  ∃ l, l ∈ ls ∧ row = log_row l (r_habit_name row) ∧
       match r_habit_name row with
       | Some n => ∃ h, h ∈ hs ∧ h_id h = l_habit_id l ∧ h_name h = n
       | None => ∀ h, h ∈ hs → h_id h ≠ l_habit_id l
       end.
Proof.
  unfold left_join. rewrite list_elem_of_bind. split.
  - intros (l & Hrow & Hl). exists l. split; [done|].
    destruct (filter _ hs) as [|h0 ms] eqn:Hf.
    + apply list_elem_of_singleton in Hrow as ->. split; [done|]. simpl.
      intros h Hh Heq.
      apply (filter_nil_not_elem_of _ _ h Hf); done.
    + apply list_elem_of_fmap in Hrow as (h & -> & Hh). split; [done|]. simpl.
      rewrite <- Hf in Hh. apply list_elem_of_filter in Hh as [Hid Hh]. eauto.
  - intros (l & Hl & Hrow & Hname). exists l. split; [|done].
    destruct (r_habit_name row) as [n|] eqn:Hn.
    + destruct Hname as (h & Hh & Hid & <-).
      assert (h ∈ filter (λ h, h_id h = l_habit_id l) hs) as Hin
        by (by apply list_elem_of_filter).
      destruct (filter _ hs) as [|h0 ms]; [by apply elem_of_nil in Hin|].
      apply list_elem_of_fmap. rewrite Hrow. eauto.
    + replace (filter _ hs) with (@nil Habit).
      * rewrite Hrow. by left.
      * symmetry. apply filter_none. intros h Hh. by apply Hname.
Qed.

Lemma left_join_cons l ls hs :
  left_join (l :: ls) hs = left_join [l] hs ++ left_join ls hs.
Proof. unfold left_join. simpl. by rewrite app_nil_r. Qed.

Lemma left_join_app ls1 ls2 hs :
  left_join (ls1 ++ ls2) hs = left_join ls1 hs ++ left_join ls2 hs.
Proof. unfold left_join. apply bind_app. Qed.

Lemma filter_unique_key (hs : list Habit) h :
  NoDup (h_id <$> hs) → h ∈ hs →
  filter (λ x, h_id x = h_id h) hs = [h].
Proof.
  induction hs as [|a hs IH]; [by intros _ ?%elem_of_nil|].
  rewrite fmap_cons, NoDup_cons, list_elem_of_fmap.
  intros [Ha Hnd] [->|Hh]%elem_of_cons.
  - rewrite filter_cons_True by done. f_equal.
    apply filter_none. intros x Hx Heq. destruct Ha. eauto.
  - rewrite filter_cons_False; [by apply IH|].
    intros Heq. destruct Ha. eauto.
Qed.


Lemma add_log_inv conn now hid ts note ret conn' :
  add_log conn now hid ts note = Ok (ret, conn') →
  int64 hid ∧ ret = None ∧
  conn' =
    {| foreign_keys := foreign_keys conn;
       habits := habits conn;
       habits_seq := habits_seq conn;
       logs := logs conn
                 ++ [mkLog (next_rowid (logs_seq conn) (l_id <$> logs conn))
                       hid (default now ts) note];
       logs_seq := next_rowid (logs_seq conn) (l_id <$> logs conn) |}.
Proof.
  unfold add_log. case_bool_decide; [|done]. destruct (_ && _); [done|].
  intros [= <- <-]. split; [done|]. split; [done|]. by destruct ts.
Qed.

Lemma add_log_Ok conn now hid ts note :
  foreign_keys conn = false → int64 hid →
  add_log conn now hid ts note =
  Ok (None,
      {| foreign_keys := foreign_keys conn;
         habits := habits conn;
         habits_seq := habits_seq conn;
         logs := logs conn
                   ++ [mkLog (next_rowid (logs_seq conn) (l_id <$> logs conn))
                         hid (default now ts) note];
         logs_seq := next_rowid (logs_seq conn) (l_id <$> logs conn) |}).
Proof.
  intros Hfk Hid. unfold add_log.
  rewrite bool_decide_eq_true_2, Hfk by done. simpl. by destruct ts.
Qed.

Lemma add_log_overflow conn now hid ts note :
  ¬ int64 hid →
  add_log conn now hid ts note =
  Raise (OverflowError "Python int too large to convert to SQLite INTEGER").
Proof. intros Hid. unfold add_log. by rewrite bool_decide_eq_false_2. Qed.

Lemma next_rowid_fresh seq ids i : i ∈ ids → i < next_rowid seq ids.
Proof.
  unfold next_rowid. intros Hi.
  destruct (foldl_max_spec ids seq) as (_ & _ & Hub).
  specialize (Hub i Hi). lia.
Qed.

End storage_facts.

(** * Facts about ISO texts *)

Section isoformat_facts.

Local Open Scope N_scope.

Lemma lex_assoc c1 c2 c3 : lex (lex c1 c2) c3 = lex c1 (lex c2 c3).
Proof. by destruct c1. Qed.

Lemma compare_cons c d s t :
  String.compare (String c s) (String d t)
  = lex (Ascii.compare c d) (String.compare s t).
Proof. simpl. by destruct (Ascii.compare c d). Qed.

Lemma compare_same_head c s t :
  String.compare (String c s) (String c t) = String.compare s t.
Proof.
  rewrite compare_cons. unfold Ascii.compare. by rewrite N.compare_refl.
Qed.

Lemma compare_digit a b :
  Ascii.compare (digit a) (digit b) = (a mod 10 ?= b mod 10).
Proof.
  unfold Ascii.compare, digit.
  pose proof (N.mod_upper_bound a 10). pose proof (N.mod_upper_bound b 10).
  rewrite !Ascii.N_ascii_embedding by lia.
  destruct (N.compare_spec (a mod 10) (b mod 10)).
  - apply N.compare_eq_iff. lia.
  - apply N.compare_lt_iff. lia.
  - apply N.compare_gt_iff. lia.
Qed.

Lemma compare_div_mod a b :
  (a ?= b) = lex (a / 10 ?= b / 10) (a mod 10 ?= b mod 10).
Proof.
  pose proof (N.div_mod a 10 ltac:(done)) as Ha.
  pose proof (N.div_mod b 10 ltac:(done)) as Hb.
  pose proof (N.mod_upper_bound a 10 ltac:(done)) as Hra.
  pose proof (N.mod_upper_bound b 10 ltac:(done)) as Hrb.
  revert Ha Hb Hra Hrb.
  generalize (a / 10) (b / 10) (a mod 10) (b mod 10). intros qa qb ra rb ????.
  destruct (N.compare_spec qa qb) as [Hq|Hq|Hq]; simpl.
  - destruct (N.compare_spec ra rb).
    + apply N.compare_eq_iff. lia.
    + apply N.compare_lt_iff. lia.
    + apply N.compare_gt_iff. lia.
  - apply N.compare_lt_iff. lia.
  - apply N.compare_gt_iff. lia.
Qed.

(** Numbers written with the same number of digits compare as their
    texts do. *)
Lemma compare_digits (w : nat) : ∀ a b s t,
  a < 10 ^ N.of_nat w → b < 10 ^ N.of_nat w →
  String.compare (digits w a s) (digits w b t)
  = lex (a ?= b) (String.compare s t).
Proof.
  induction w as [|w IH]; intros a b s t Ha Hb.
  - simpl in *. assert (a = 0) as -> by lia. by assert (b = 0) as -> by lia.
  - rewrite Nat2N.inj_succ, N.pow_succ_r' in Ha, Hb. simpl.
    rewrite IH, compare_cons, compare_digit, <- lex_assoc, <- compare_div_mod.
    + done.
    + apply N.Div0.div_lt_upper_bound. lia.
    + apply N.Div0.div_lt_upper_bound. lia.
Qed.

Lemma valid_datetime_widths dt :
  valid_datetime dt →
  year dt < 10 ^ N.of_nat 4 ∧ month dt < 10 ^ N.of_nat 2 ∧
  day dt < 10 ^ N.of_nat 2 ∧ hour dt < 10 ^ N.of_nat 2 ∧
  minute dt < 10 ^ N.of_nat 2 ∧ second dt < 10 ^ N.of_nat 2 ∧
  microsecond dt < 10 ^ N.of_nat 6.
Proof.
  intros (Hy & Hm & Hd & Hh & Hmi & Hs & Hus).
  assert (days_in_month (year dt) (month dt) ≤ 31).
  { unfold days_in_month. repeat case_match; lia. }
  change (10 ^ N.of_nat 4) with 10000. change (10 ^ N.of_nat 2) with 100.
  change (10 ^ N.of_nat 6) with 1000000. lia.
Qed.

(** The ISO texts of two datetimes, written with the same separator,
    compare bytewise as the datetimes do. *)
Lemma isoformat_compare sep a b :
  valid_datetime a → valid_datetime b →
  String.compare (isoformat sep a) (isoformat sep b) = datetime_compare a b.
Proof.
  intros (Ha1 & Ha2 & Ha3 & Ha4 & Ha5 & Ha6 & Ha7)%valid_datetime_widths
         (Hb1 & Hb2 & Hb3 & Hb4 & Hb5 & Hb6 & Hb7)%valid_datetime_widths.
  unfold isoformat, datetime_compare.
  repeat (rewrite compare_digits by done; rewrite ?compare_same_head).
  do 6 f_equal.
  destruct (N.eqb_spec (microsecond a) 0) as [Ea|Ea],
           (N.eqb_spec (microsecond b) 0) as [Eb|Eb].
  - by rewrite Ea, Eb.
  - replace (microsecond a ?= microsecond b) with Lt; [done|].
    symmetry. apply N.compare_lt_iff. lia.
  - replace (microsecond a ?= microsecond b) with Gt; [done|].
    symmetry. apply N.compare_gt_iff. lia.
  - rewrite compare_same_head, compare_digits by done. simpl.
    by destruct (microsecond a ?= microsecond b).
Qed.

Lemma isoformat_le sep a b :
  valid_datetime a → valid_datetime b →
  text_le (isoformat sep a) (isoformat sep b) ↔ datetime_le a b.
Proof.
  intros Ha Hb. unfold text_le, datetime_le, String.leb.
  rewrite isoformat_compare by done.
  by destruct (datetime_compare a b).
Qed.

End isoformat_facts.

Section time_order_facts.





End time_order_facts.

(** * The streak claims *)

Lemma ymd_january y d : ymd y 1 d = ymd y 1 1 + (d - 1).
Proof. unfold ymd. simpl. lia. Qed.





(** Claim C1.  When at least one entry survives the habit filter,
    [calc_streaks] returns as [current] the length of the run of consecutive
    logged days that ends on the latest logged day [m]: the days [m],
    [m - 1], ..., [m - current + 1] are all logged and day [m - current] is
    the first missing one.  The clock reading plays no part in the result.
    For entries on exactly Jan 1, Jan 2 and Jan 4 of any year the result is
    current = 1 and best = 2. *)
Theorem calc_streaks_current_is_run_ending_at_latest_day utcnow df hid :
  (∃ d, logged_on df hid d) →
  (∃ m cur best,
     calc_streaks utcnow df hid = Ok (cur, best) ∧
     logged_on df hid m ∧ (∀ d, logged_on df hid d → d ≤ m) ∧
     1 ≤ cur ∧ (∀ i, 0 ≤ i < cur → logged_on df hid (m - i)) ∧
     ¬ logged_on df hid (m - cur)) ∧
  (∀ utcnow', calc_streaks utcnow' df hid = calc_streaks utcnow df hid) ∧
  (∀ y, (∀ d, logged_on df hid d ↔
              d = ymd y 1 1 ∨ d = ymd y 1 2 ∨ d = ymd y 1 4) →
        calc_streaks utcnow df hid = Ok (1, 2)).
Proof.
  intros [d0 Hd0].
  destruct (calc_streaks_char utcnow df hid)
    as [[Hnone _]|(m & cur & best & Heq & Hm & Hub & Hrun & Hc1 & Hmax & Hwit)];
    [by destruct (Hnone d0)|].
  split; [|split].
  - exists m, cur, best. destruct Hrun as (_ & Hin & Hout). done.
  - done.
  - intros y Hjan. rewrite Heq. f_equal.
    rewrite (ymd_january y 2), (ymd_january y 4) in Hjan.
    set (d1 := ymd y 1 1) in *.
    assert (R1 : run_at (logged_on df hid) d1 1).
    { split; [lia|]. split; [intros i Hi; apply Hjan|rewrite Hjan]; lia. }
    assert (R2 : run_at (logged_on df hid) (d1 + 1) 2).
    { split; [lia|]. split; [intros i Hi; apply Hjan|rewrite Hjan]; lia. }
    assert (R4 : run_at (logged_on df hid) (d1 + 3) 1).
    { split; [lia|]. split; [intros i Hi; apply Hjan|rewrite Hjan]; lia. }
    assert (m = d1 + 3) as ->.
    { apply Hjan in Hm. specialize (Hub (d1 + 3)).
      rewrite Hjan in Hub. lia. }
    rewrite (run_at_unique _ _ _ _ Hrun R4).
    assert (2 ≤ best) by (apply (Hmax (d1 + 1)); [apply Hjan; lia|done]).
    destruct Hwit as (d & Hd & Hdb). apply Hjan in Hd.
    assert (best ≤ 2); [|f_equal; lia].
    destruct Hd as [->|[Hd|Hd]].
    + rewrite (run_at_unique _ _ _ _ Hdb R1). lia.
    + replace d with (d1 + 1) in Hdb by lia.
      rewrite (run_at_unique _ _ _ _ Hdb R2). lia.
    + replace d with (d1 + 3) in Hdb by lia.
      rewrite (run_at_unique _ _ _ _ Hdb R4). lia.
Qed.

Lemma gap_frame_days d :
  logged_on gap_frame None d ↔
  d = ymd 2024 1 1 ∨ d = ymd 2024 1 2 ∨ d = ymd 2024 1 4.
Proof.
  unfold logged_on, gap_frame. simpl. split.
  - intros (r & Hr & _ & <-).
    rewrite !elem_of_cons in Hr.
    destruct Hr as [->|[->|[->|Hr]]]; [..|by apply elem_of_nil in Hr];
      vm_compute; auto.
  - intros [-> | [-> | ->]];
      [exists (mkRow 1 (at_time (ymd 2024 1 1) 0 0 0))
      |exists (mkRow 1 (at_time (ymd 2024 1 2) 23 59 59))
      |exists (mkRow 1 (at_time (ymd 2024 1 4) 7 30 0))];
      (split; [rewrite !elem_of_cons; auto|split; [done|reflexivity]]).
Qed.

Lemma calc_streaks_current_is_run_ending_at_latest_day_witness :
  calc_streaks now_2024_01_09 gap_frame None = Ok (1, 2).
Proof.
  refine (proj2 (proj2
    (calc_streaks_current_is_run_ending_at_latest_day
       now_2024_01_09 gap_frame None _)) 2024 gap_frame_days).
  exists (ymd 2024 1 1). apply gap_frame_days. by left.
Defined.





(** * The parse of the [ts] column *)

Section parse_facts.






End parse_facts.




(** Claim C10.  When at least one day is logged after the habit filter, the
    result of [calc_streaks] satisfies [1 <= current <= best]: [current] is
    the run ending on the latest logged day, and [best] is the length of
    some run and bounds the run ending on every logged day. *)
Theorem calc_streaks_current_at_most_best utcnow df hid :
  (∃ d, logged_on df hid d) →
  ∃ cur best,
    calc_streaks utcnow df hid = Ok (cur, best) ∧
    1 ≤ cur ≤ best ∧
    (∃ m, logged_on df hid m ∧ (∀ d, logged_on df hid d → d ≤ m) ∧
          run_at (logged_on df hid) m cur) ∧
    (∀ d k, logged_on df hid d → run_at (logged_on df hid) d k → k ≤ best) ∧
    (∃ d, logged_on df hid d ∧ run_at (logged_on df hid) d best).
Proof.
  intros [d0 Hd0].
  destruct (calc_streaks_char utcnow df hid)
    as [[Hnone _]|(m & cur & best & Heq & Hm & Hub & Hrun & Hc1 & Hmax & Hwit)];
    [by destruct (Hnone d0)|].
  exists cur, best. split; [done|].
  split; [split; [done|by apply (Hmax m)]|].
  split; [by exists m|done].
Qed.

Lemma calc_streaks_current_at_most_best_witness :
  ∃ cur best,
    calc_streaks now_2024_01_09 gap_frame None = Ok (cur, best) ∧
    1 ≤ cur ≤ best.
Proof.
  destruct (calc_streaks_current_at_most_best now_2024_01_09 gap_frame None)
    as (cur & best & Heq & Hb & _).
  - exists (ymd 2024 1 1). apply gap_frame_days. by left.
  - by exists cur, best.
Defined.

(** * The daily-count claims *)

Lemma count_on_single h t : count_on (date t) [mkRow h t] = 1.
Proof. unfold count_on. by rewrite filter_cons_True. Qed.

(** On a tz-aware frame the window holds the per-day counts. *)
Lemma weekly_counts_aware utcnow r rs (days : nat) :
  weekly_counts utcnow (mkFrame UTC (r :: rs)) days =
  Ok {| index := DatetimeIndex UTC;
        items :=
          (λ i, let d := date utcnow - Z.of_nat days + Z.of_nat i in
                (d * NS_PER_DAY, count_on d (r :: rs)))
            <$> seq 0 (days + 1) |}.
Proof. by rewrite weekly_counts_nonempty. Qed.

Lemma weekly_counts_aware_entry_today utcnow h :
  weekly_counts utcnow (mkFrame UTC [mkRow h utcnow]) 0 =
  Ok (mkSeries (DatetimeIndex UTC) [(normalize utcnow, 1)]).
Proof.
  rewrite weekly_counts_aware. simpl. rewrite Z.sub_0_r, Z.add_0_r.
  by rewrite count_on_single.
Qed.

(** Claim C2, as the code has it.  An empty frame gives the empty series.
    A single entry logged today, stored as [add_log] stores it (a tz-naive
    timestamp), gives with window 0 a one-element series for today, but its
    count is 0 where the claim says 1, although one entry falls on today:
    the tz-aware window never matches the tz-naive day bins. *)
Theorem weekly_counts_naive_entry_today utcnow h :
  weekly_counts utcnow (mkFrame Naive []) 0 = Ok (mkSeries DefaultIndex []) ∧
  weekly_counts utcnow (mkFrame Naive [mkRow h utcnow]) 0 =
    Ok (mkSeries (DatetimeIndex UTC) [(normalize utcnow, 0)]) ∧
  count_on (date utcnow) [mkRow h utcnow] = 1.
Proof.
  split; [done|]. split; [|apply count_on_single].
  rewrite weekly_counts_nonempty by done. simpl.
  by rewrite Z.sub_0_r, Z.add_0_r.
Qed.

(** Claim C4, as the code has it.  For a non-empty frame of tz-naive
    timestamps the series has the [days + 1] consecutive midnights ending
    today as labels, in ascending order, but every value is 0, whatever the
    entries are, where the claim says the number of entries of that day. *)
Theorem weekly_counts_naive_window utcnow r rs (days : nat) :
  weekly_counts utcnow (mkFrame Naive (r :: rs)) days =
  Ok {| index := DatetimeIndex UTC;
        items :=
          (λ i, ((date utcnow - Z.of_nat days + Z.of_nat i) * NS_PER_DAY, 0))
            <$> seq 0 (days + 1) |}.
Proof. by rewrite weekly_counts_nonempty. Qed.

(** * The storage claims *)

Lemma reachable_foreign_keys_off conn :
  reachable conn → foreign_keys conn = false.
Proof.
  induction 1 as [|conn now name category target color _ IH _
                  |conn now hid ts note ret conn' _ IH Hadd]; [done..|].
  by apply add_log_inv in Hadd as (_ & _ & ->).
Qed.

(** Every stored habit key fits 64 bits. *)
Lemma reachable_int64 conn h :
  reachable conn → h ∈ habits conn → int64 (h_id h).
Proof.
  intros Hr. revert h.
  induction Hr as [|conn now name category target color _ IH Hkey
                   |conn now hid ts note ret conn' _ IH Hadd]; intros h.
  - by intros ?%elem_of_nil.
  - simpl. intros [Hh| ->%list_elem_of_singleton]%elem_of_app; [auto|done].
  - apply add_log_inv in Hadd as (_ & _ & ->). apply IH.
Qed.

(** [add_habit] itself checks nothing: a blank name is stored as it is. *)
Lemma add_habit_accepts_blank_name conn now category target color :
  ∃ h, habits (add_habit conn now EmptyString category target color).2
       = habits conn ++ [h] ∧ h_name h = EmptyString.
Proof. eexists. split; [reflexivity|done]. Qed.

(** Claim C3.  Submitting the habit form with a name that is empty after
    [strip] shows the validation error and leaves the database as it was;
    the empty name, the name of three blanks and a name of Unicode white
    space alone are such names. *)
Theorem form_habit_rejects_blank_name conn now name category target color :
  strip name = EmptyString →
  form_habit_submit conn now name category target color
    = (st_error "Nome obrigat√≥rio", conn) ∧
  strip EmptyString = EmptyString ∧ strip "   " = EmptyString ∧
  strip wide_blank = EmptyString.
Proof.
  intros Hblank. split; [|done].
  unfold form_habit_submit. by rewrite bool_decide_eq_true_2.
Qed.

Lemma form_habit_rejects_blank_name_witness :
  form_habit_submit init_db "2024-01-09T08:00:00" wide_blank "health" 1 "#7c3aed"
    = (st_error "Nome obrigat√≥rio", init_db).
Proof.
  apply (form_habit_rejects_blank_name
           init_db "2024-01-09T08:00:00" wide_blank "health" 1 "#7c3aed").
  reflexivity.
Defined.

(** Claim C6, as stated, fails: [add_log] does not succeed for every
    [habit_id].  An integer that does not fit 64 bits is refused when it is
    bound to the INSERT, and no row is stored. *)
Lemma add_log_refuses_oversized_habit_id :
  add_log init_db "2024-01-09T08:00:00" (2 ^ 63) None None
  = Raise (OverflowError "Python int too large to convert to SQLite INTEGER").
Proof. reflexivity. Qed.

(** Claim C6, amended.  On every connection the program can hold, [add_log]
    without a timestamp succeeds for every [habit_id] that fits 64 bits,
    appends one row whose [ts] is the current UTC time and leaves [habits]
    alone; with a timestamp it succeeds too.  When no habit has that id, the
    new row is an orphan.  A [habit_id] that does not fit is refused. *)
Theorem add_log_defaults_timestamp_and_checks_no_habit conn now hid note :
  reachable conn →
  int64 hid →
  ∃ conn' rowid,
    add_log conn now hid None note = Ok (None, conn') ∧
    logs conn' = logs conn ++ [mkLog rowid hid now note] ∧
    habits conn' = habits conn ∧
    (∀ ts, ∃ conn'', add_log conn now hid ts note = Ok (None, conn'')) ∧
    (hid ∉ h_id <$> habits conn →
     ∃ l, l ∈ logs conn' ∧ ∀ h, h ∈ habits conn' → h_id h ≠ l_habit_id l) ∧
    (∀ big ts, ¬ int64 big → ∃ e, add_log conn now big ts note = Raise e).
Proof.
  intros Hfk%reachable_foreign_keys_off Hid.
  rewrite add_log_Ok by done.
  eexists _, _. split; [reflexivity|]. simpl.
  split; [reflexivity|]. split; [done|]. split; [|split].
  - intros ts. rewrite add_log_Ok by done. eauto.
  - intros Horphan. eexists. split.
    + apply elem_of_app. right. by left.
    + simpl. intros h Hh Heq. apply Horphan, list_elem_of_fmap. eauto.
  - intros big ts Hbig. rewrite add_log_overflow by done. eauto.
Qed.

Lemma add_log_defaults_timestamp_and_checks_no_habit_witness :
  ∃ conn',
    add_log init_db "2024-01-09T08:00:00" 7 None None = Ok (None, conn') ∧
    logs conn' = [mkLog 1 7 "2024-01-09T08:00:00" None] ∧
    habits conn' = [].
Proof.
  destruct (add_log_defaults_timestamp_and_checks_no_habit
              init_db "2024-01-09T08:00:00" 7 None reach_init)
    as (conn' & rowid & Hadd & Hlogs & Hhabits & _); [by vm_compute|].
  exists conn'. split; [exact Hadd|].
  injection Hadd as <-. done.
Defined.







(** * Further properties of the storage accessor, the forms and the
    aggregators *)

Section storage_invariants.

Lemma first_ids_S n : first_ids (S n) = first_ids n ++ [Z.of_nat n + 1].
Proof. unfold first_ids. by rewrite seq_S, fmap_app. Qed.

Lemma elem_of_first_ids n i : i ∈ first_ids n ↔ 1 ≤ i ≤ Z.of_nat n.
Proof.
  unfold first_ids. rewrite list_elem_of_fmap. setoid_rewrite elem_of_seq.
  split.
  - intros (j & -> & Hj). lia.
  - intros Hi. exists (Z.to_nat (i - 1)). lia.
Qed.

Lemma next_rowid_first_ids n :
  next_rowid (Z.of_nat n) (first_ids n) = Z.of_nat n + 1.
Proof.
  unfold next_rowid. f_equal.
  destruct (foldl_max_spec (first_ids n) (Z.of_nat n)) as ([Heq|Hin] & Hle & _);
    [done|].
  apply elem_of_first_ids in Hin. lia.
Qed.

Lemma NoDup_first_ids n : NoDup (first_ids n).
Proof.
  unfold first_ids. apply NoDup_fmap_2_strong; [|apply NoDup_seq].
  intros i j _ _. lia.
Qed.

(** On every connection the program can hold, the keys of each table are
    1, 2, ..., n in insertion order and the sequence counter is n. *)
Lemma reachable_keys conn :
  reachable conn →
  h_id <$> habits conn = first_ids (length (habits conn)) ∧
  habits_seq conn = Z.of_nat (length (habits conn)) ∧
  l_id <$> logs conn = first_ids (length (logs conn)) ∧
  logs_seq conn = Z.of_nat (length (logs conn)).
Proof.
  induction 1 as [|conn now name category target color _ IH _
                  |conn now hid ts note ret conn' Hr IH Hadd].
  - done.
  - destruct IH as (Hh & Hhs & Hl & Hls). simpl.
    rewrite Hh, Hhs, next_rowid_first_ids, fmap_app, length_app, Hh. simpl.
    rewrite Nat.add_1_r, first_ids_S. split; [done|]. split; [lia|done].
  - destruct IH as (Hh & Hhs & Hl & Hls).
    apply add_log_inv in Hadd as (_ & _ & ->). simpl.
    rewrite Hl, Hls, next_rowid_first_ids, fmap_app, length_app, Hl. simpl.
    rewrite Nat.add_1_r, first_ids_S. split; [done|]. split; [done|].
    split; [done|lia].
Qed.

Lemma NoDup_fmap_eq {A B} (f : A → B) (l : list A) x y :
  NoDup (f <$> l) → x ∈ l → y ∈ l → f x = f y → x = y.
Proof.
  induction l as [|a l IH]; [by intros _ ?%elem_of_nil|].
  rewrite fmap_cons, NoDup_cons, list_elem_of_fmap.
  intros [Ha Hnd] [->|Hx]%elem_of_cons [->|Hy]%elem_of_cons Hf.
  - done.
  - destruct Ha. eauto.
  - destruct Ha. exists x. by split.
  - by apply IH.
Qed.

Lemma first_ids_reverse_sorted (l : list Habit) :
  h_id <$> l = first_ids (length l) → StronglySorted id_desc (reverse l).
Proof.
  induction l as [|x l IH] using rev_ind; [constructor|].
  rewrite fmap_app, length_app, Nat.add_1_r, first_ids_S. simpl.
  intros [Hl Hx]%app_inj_2; [|done]. injection Hx as Hx.
  rewrite reverse_snoc. constructor; [by apply IH|].
  apply Forall_forall. intros y Hy. rewrite elem_of_reverse in Hy.
  unfold id_desc.
  assert (h_id y ∈ first_ids (length l)) as Hin.
  { rewrite <- Hl. apply list_elem_of_fmap. by exists y. }
  apply elem_of_first_ids in Hin. lia.
Qed.

Lemma get_habits_reverse conn :
  reachable conn → get_habits conn = reverse (habits conn).
Proof.
  intros (Hh & _)%reachable_keys.
  apply (StronglySorted_unique_strong id_desc).
  - intros x y Hx Hy Hxy Hyx. unfold id_desc in *.
    unfold get_habits in Hx. rewrite merge_sort_Permutation in Hx.
    rewrite elem_of_reverse in Hy.
    apply (NoDup_fmap_eq h_id (habits conn)); [|done|done|lia].
    rewrite Hh. apply NoDup_first_ids.
  - apply (StronglySorted_merge_sort id_desc).
  - by apply first_ids_reverse_sorted.
  - unfold get_habits. by rewrite merge_sort_Permutation, reverse_Permutation.
Qed.

End storage_invariants.

(** X1.  On every connection the program can hold, the keys of [habits]
    and of [logs] are 1, 2, ..., n in insertion order, and each sequence
    counter equals the number of rows of its table. *)
Theorem table_keys_are_consecutive conn :
  reachable conn →
  h_id <$> habits conn = first_ids (length (habits conn)) ∧
  habits_seq conn = Z.of_nat (length (habits conn)) ∧
  l_id <$> logs conn = first_ids (length (logs conn)) ∧
  logs_seq conn = Z.of_nat (length (logs conn)).
Proof. apply reachable_keys. Qed.

(** X2.  On every connection the program can hold, [get_habits] lists the
    habits in the reverse of their insertion order: the habit created last
    comes first. *)
Theorem get_habits_is_reverse_insertion_order conn :
  reachable conn → get_habits conn = reverse (habits conn).
Proof. apply get_habits_reverse. Qed.

Section join_facts.

(** With unique habit keys every log yields exactly one row of the join. *)
Lemma left_join_one_row l hs :
  NoDup (h_id <$> hs) → length (left_join [l] hs) = 1%nat.
Proof.
  intros Hnd. unfold left_join. simpl. rewrite app_nil_r.
  destruct (filter _ hs) as [|h ms] eqn:Hf; [done|].
  assert (h ∈ filter (λ x, h_id x = l_habit_id l) hs) as Hh
    by (rewrite Hf; by left).
  apply list_elem_of_filter in Hh as [Hid Hh].
  rewrite <- Hid in Hf. rewrite filter_unique_key in Hf by done.
  by injection Hf as <-.
Qed.

Lemma left_join_length ls hs :
  NoDup (h_id <$> hs) → length (left_join ls hs) = length ls.
Proof.
  intros Hnd. induction ls as [|l ls IH]; [done|].
  rewrite left_join_cons, length_app, left_join_one_row, IH by done. done.
Qed.

Lemma reachable_habit_keys_NoDup conn :
  reachable conn → NoDup (h_id <$> habits conn).
Proof. intros (-> & _)%reachable_keys. apply NoDup_first_ids. Qed.

Lemma left_join_ids row ls hs :
  row ∈ left_join ls hs → r_id row ∈ l_id <$> ls.
Proof.
  intros (l & Hl & -> & _)%elem_of_left_join.
  apply list_elem_of_fmap. by exists l.
Qed.

End join_facts.

(** X3.  On every connection the program can hold, the join of [get_logs]
    neither drops nor repeats a log: it has as many rows as [logs], with
    the same ids, and [get_habits] has as many rows as [habits].  These
    lengths are the two counters of the dashboard. *)
Theorem get_logs_one_row_per_log conn :
  reachable conn →
  length (get_logs conn) = length (logs conn) ∧
  l_id <$> logs conn ≡ₚ r_id <$> get_logs conn ∧
  length (get_habits conn) = length (habits conn).
Proof.
  intros Hr. pose proof (reachable_habit_keys_NoDup conn Hr) as Hnd.
  split; [|split];
    [| |unfold get_habits; by rewrite merge_sort_Permutation].
  all: unfold get_logs; rewrite order_by_ts_desc_Permutation.
  { by apply left_join_length. }
  induction (logs conn) as [|l ls IH]; [done|].
  rewrite left_join_cons, fmap_app, fmap_cons, <- IH.
  pose proof (left_join_one_row l (habits conn) Hnd) as Hone.
  destruct (left_join [l] (habits conn)) as [|row [|??]] eqn:Hj; try done.
  assert (row ∈ left_join [l] (habits conn)) as Hin by (rewrite Hj; by left).
  apply elem_of_left_join in Hin as (l' & ->%list_elem_of_singleton & -> & _).
  done.
Qed.

(** X4.  Logging for an existing habit and reading back: [add_log]
    succeeds, and [get_logs] then holds exactly one row with the new id; it
    carries the habit's id and name, the note, and the given timestamp or,
    without one, the clock reading. *)
Theorem add_log_then_get_logs conn now h ts note :
  reachable conn → h ∈ habits conn →
  ∃ conn' rowid,
    add_log conn now (h_id h) ts note = Ok (None, conn') ∧
    filter (λ r, r_id r = rowid) (get_logs conn') =
      [mkLogRow rowid (h_id h) (default now ts) note (Some (h_name h))].
Proof.
  intros Hr Hh.
  pose proof (reachable_habit_keys_NoDup conn Hr) as Hnd.
  rewrite add_log_Ok
    by eauto using reachable_foreign_keys_off, reachable_int64.
  eexists _, (next_rowid (logs_seq conn) (l_id <$> logs conn)).
  split; [reflexivity|].
  apply Permutation_singleton_r.
  unfold get_logs. rewrite order_by_ts_desc_Permutation. simpl.
  rewrite left_join_app, filter_app, filter_none.
  - unfold left_join. simpl. rewrite app_nil_r, filter_unique_key by done.
    simpl. by rewrite filter_cons_True by done.
  - intros row Hrow%left_join_ids Heq.
    apply (next_rowid_fresh (logs_seq conn)) in Hrow. lia.
Qed.

Lemma add_log_then_get_logs_witness :
  ∃ conn',
    add_log (add_habit init_db "2024-01-08T07:00:00" "Run" "health" 1 "#7c3aed").2
      "2024-01-09T08:00:00" 1 None (Some "5 km") = Ok (None, conn') ∧
    get_logs conn' =
      [mkLogRow 1 1 "2024-01-09T08:00:00" (Some "5 km") (Some "Run")].
Proof.
  destruct (add_log_then_get_logs
              (add_habit init_db "2024-01-08T07:00:00" "Run" "health" 1 "#7c3aed").2
              "2024-01-09T08:00:00"
              (mkHabit 1 "Run" "health" 1 "#7c3aed" "2024-01-08T07:00:00")
              None (Some "5 km"))
    as (conn' & rowid & Hadd & _).
  - apply reach_add_habit; [apply reach_init|by vm_compute].
  - by left.
  - exists conn'. split; [exact Hadd|]. by injection Hadd as <-.
Defined.

(** X5.  A log whose [habit_id] is the key the next habit will get is
    listed without a habit name before [add_habit] and with the name of the
    new habit after it: the new habit adopts the orphan. *)
Theorem add_habit_adopts_orphan_logs conn now name category target color l :
  l ∈ logs conn →
  l_habit_id l = next_rowid (habits_seq conn) (h_id <$> habits conn) →
  log_row l None ∈ get_logs conn ∧
  log_row l (Some name)
    ∈ get_logs (add_habit conn now name category target color).2.
Proof.
  intros Hl Hid. rewrite !elem_of_get_logs.
  split; apply elem_of_left_join; exists l; simpl; (split; [done|]);
    (split; [done|]).
  - intros h Hh Heq. rewrite Hid in Heq.
    assert (h_id h < next_rowid (habits_seq conn) (h_id <$> habits conn)).
    { apply next_rowid_fresh, list_elem_of_fmap. eauto. }
    lia.
  - eexists. split; [apply elem_of_app; right; by left|]. by simpl.
Qed.

Lemma add_habit_adopts_orphan_logs_witness :
  let conn :=
    {| foreign_keys := false; habits := []; habits_seq := 0;
       logs := [mkLog 1 1 "2024-01-09T08:00:00" None]; logs_seq := 1 |} in
  log_row (mkLog 1 1 "2024-01-09T08:00:00" None) None ∈ get_logs conn ∧
  log_row (mkLog 1 1 "2024-01-09T08:00:00" None) (Some "Run")
    ∈ get_logs
        (add_habit conn "2024-01-10T09:00:00" "Run" "health" 1 "#7c3aed").2.
Proof.
  apply add_habit_adopts_orphan_logs; [by left|reflexivity].
Defined.

Section dict_facts.

Lemma dict_get_set_eq k v d : dict_get k (dict_set k v d) = Some v.
Proof.
  induction d as [|[k' v'] d IH]; simpl.
  - by rewrite bool_decide_eq_true_2.
  - case_bool_decide; simpl.
    + by rewrite bool_decide_eq_true_2.
    + by rewrite bool_decide_eq_false_2.
Qed.

Lemma dict_get_set_ne k k' v d :
  k ≠ k' → dict_get k' (dict_set k v d) = dict_get k' d.
Proof.
  intros Hne. induction d as [|[k0 v0] d IH]; simpl.
  - by rewrite bool_decide_eq_false_2.
  - case_bool_decide as Hk; simpl.
    + subst k0. by rewrite !bool_decide_eq_false_2.
    + case_bool_decide; [done|apply IH].
Qed.

(** The entry of a name in [h_opt] is the id of the last row with that
    name. *)
Lemma h_opt_get k (df_h : list Habit) :
  dict_get k (h_opt df_h) = h_id <$> last (filter (λ h, h_name h = k) df_h).
Proof.
  unfold h_opt. induction df_h as [|x l IH] using rev_ind; [done|].
  rewrite foldl_snoc, filter_app.
  destruct (decide (h_name x = k)) as [<-|Hne].
  - rewrite dict_get_set_eq, filter_cons_True, filter_nil by done.
    by rewrite last_snoc.
  - rewrite dict_get_set_ne, filter_cons_False, filter_nil, app_nil_r by done.
    apply IH.
Qed.

Lemma StronglySorted_filter {A} (R : relation A) (P : A → Prop)
    `{∀ x, Decision (P x)} (l : list A) :
  StronglySorted R l → StronglySorted R (filter P l).
Proof.
  induction 1 as [|x l Hl IH Hx]; [constructor|].
  rewrite filter_cons. case_decide; [|done].
  constructor; [done|].
  rewrite Forall_forall in Hx |- *. intros y [_ Hy]%list_elem_of_filter. auto.
Qed.

Lemma StronglySorted_last {A} (R : relation A) (l : list A) x y :
  StronglySorted R l → last l = Some y → x ∈ l → x = y ∨ R x y.
Proof.
  intros Hs [l' ->]%last_Some [Hx|Hx%list_elem_of_singleton]%elem_of_app;
    [|by left].
  right. apply StronglySorted_app in Hs as (Hxy & _). apply Hxy; [done|by left].
Qed.

End dict_facts.

(** X6.  Submitting the log form with the name of an existing habit
    succeeds and appends one log, stamped with the clock reading, for the
    habit of that name with the smallest id: of two habits with the same
    name only the older one can be logged through the form. *)
Theorem log_form_logs_oldest_habit_of_that_name conn now habit_sel note :
  reachable conn →
  (∃ h, h ∈ habits conn ∧ h_name h = habit_sel) →
  ∃ h conn' rowid,
    log_form_submit conn now habit_sel note
      = registered (st_success "Registrado ‚úÖ") conn' ∧
    h ∈ habits conn ∧ h_name h = habit_sel ∧
    (∀ h', h' ∈ habits conn → h_name h' = habit_sel → h_id h ≤ h_id h') ∧
    logs conn' = logs conn ++ [mkLog rowid (h_id h) now (Some note)] ∧
    habits conn' = habits conn.
Proof.
  intros Hr (h0 & Hh0 & Hn0).
  assert (h0 ∈ get_habits conn) as Hg0
    by (unfold get_habits; by rewrite merge_sort_Permutation).
  assert (h0 ∈ filter (λ h, h_name h = habit_sel) (get_habits conn)) as Hf0
    by (by apply list_elem_of_filter).
  destruct (last (filter (λ h, h_name h = habit_sel) (get_habits conn)))
    as [h|] eqn:Hlast;
    [|apply last_None in Hlast; rewrite Hlast in Hf0; by apply elem_of_nil in Hf0].
  assert (h ∈ filter (λ h, h_name h = habit_sel) (get_habits conn)) as Hin.
  { apply last_Some in Hlast as [l' ->]. apply elem_of_app. right. by left. }
  apply list_elem_of_filter in Hin as [Hname Hin].
  unfold log_form_submit.
  destruct (get_habits conn) as [|g gs] eqn:Hg; [by apply elem_of_nil in Hg0|].
  rewrite <- Hg in *. rewrite h_opt_get, Hlast. simpl.
  unfold get_habits in Hin. rewrite merge_sort_Permutation in Hin.
  rewrite add_log_Ok
    by eauto using reachable_foreign_keys_off, reachable_int64.
  exists h. eexists _, _. split; [reflexivity|]. simpl.
  split; [done|]. split; [done|]. split; [|done].
  intros h' Hh' Hn'.
  assert (h' ∈ filter (λ h, h_name h = habit_sel) (get_habits conn)) as Hf'.
  { apply list_elem_of_filter. split; [done|].
    unfold get_habits. by rewrite merge_sort_Permutation. }
  destruct (StronglySorted_last id_desc _ h' h
              (StronglySorted_filter _ _ _
                 (StronglySorted_merge_sort id_desc (habits conn)))
              Hlast Hf') as [->|Hle]; [lia|exact Hle].
Qed.

Section strip_facts.

Lemma chars_inj s t :
  String.list_ascii_of_string s = String.list_ascii_of_string t → s = t.
Proof.
  intros H. rewrite <- (String.string_of_list_ascii_of_string s),
    <- (String.string_of_list_ascii_of_string t). by rewrite H.
Qed.

Lemma chars_rev_app s t :
  String.list_ascii_of_string (String.rev_app s t)
  = reverse (String.list_ascii_of_string s) ++ String.list_ascii_of_string t.
Proof.
  revert t. induction s as [|a s IH]; intros t; simpl; [done|].
  by rewrite IH, reverse_cons, <- app_assoc.
Qed.

Lemma chars_rev s :
  String.list_ascii_of_string (String.rev s)
  = reverse (String.list_ascii_of_string s).
Proof. unfold String.rev. by rewrite chars_rev_app, app_nil_r. Qed.

Lemma rev_rev s : String.rev (String.rev s) = s.
Proof. apply chars_inj. by rewrite !chars_rev, reverse_involutive. Qed.

(** [skip_spaces] goes on for as long as [skip_space] finds a character. *)
Lemma skip_spaces_unfold back s :
  skip_spaces back s =
  match skip_space back s with
  | Some r => skip_spaces back r
  | None => s
  end.
Proof.
  destruct s as [|a [|b [|c s]]]; simpl; try done;
    repeat (match goal with |- context [if ?b then _ else _] =>
              destruct b eqn:? end; try done).
Qed.

Lemma skip_space_shorter back s r :
  skip_space back s = Some r → (String.length r < String.length s)%nat.
Proof.
  destruct s as [|a [|b [|c s]]]; simpl; try done;
    repeat (match goal with |- context [if ?b then _ else _] =>
              destruct b eqn:? end; try done);
    intros [= <-]; simpl; lia.
Qed.

(** What [skip_space] takes away is a prefix. *)
Lemma skip_space_split back s r :
  skip_space back s = Some r →
  ∃ w, String.list_ascii_of_string s = w ++ String.list_ascii_of_string r.
Proof.
  destruct s as [|a [|b [|c s]]]; simpl; try done;
    repeat (match goal with |- context [if ?b then _ else _] =>
              destruct b eqn:? end; try done);
    intros [= <-]; simpl;
    first [by exists [a] | by exists [a; b] | by exists [a; b; c]].
Qed.

Lemma skip_spaces_spec back (n : nat) : ∀ s,
  (String.length s ≤ n)%nat →
  skip_space back (skip_spaces back s) = None ∧
  ∃ w, String.list_ascii_of_string s
       = w ++ String.list_ascii_of_string (skip_spaces back s).
Proof.
  induction n as [|n IH]; intros s Hn; rewrite skip_spaces_unfold.
  - destruct s; [|simpl in Hn; lia]. simpl. split; [done|by exists []].
  - destruct (skip_space back s) as [r|] eqn:Hs; [|split; [done|by exists []]].
    pose proof (skip_space_shorter _ _ _ Hs) as Hlt.
    destruct (IH r) as (Hdone & w & Hw); [lia|]. split; [done|].
    destruct (skip_space_split _ _ _ Hs) as (w0 & Hw0).
    exists (w0 ++ w). by rewrite Hw0, Hw, app_assoc.
Qed.

Lemma skip_spaces_done back s : skip_space back (skip_spaces back s) = None.
Proof. by apply (skip_spaces_spec back (String.length s) s). Qed.

Lemma skip_spaces_split back s :
  ∃ w, String.list_ascii_of_string s
       = w ++ String.list_ascii_of_string (skip_spaces back s).
Proof. by apply (skip_spaces_spec back (String.length s) s). Qed.

Lemma skip_spaces_id back s : skip_space back s = None → skip_spaces back s = s.
Proof. intros H. by rewrite skip_spaces_unfold, H. Qed.

(** A string that does not start with white space has no prefix that
    does. *)
Lemma skip_space_prefix x (y : list Ascii.ascii) :
  skip_space false
    (String.string_of_list_ascii (String.list_ascii_of_string x ++ y)) = None →
  skip_space false x = None.
Proof.
  destruct x as [|a [|b [|c x]]]; simpl; try done;
    repeat (match goal with |- context [if ?b then _ else _] =>
              destruct b eqn:? end; try done).
Qed.

Lemma rstrip_prefix s :
  ∃ w, String.list_ascii_of_string s
       = String.list_ascii_of_string (rstrip s) ++ w.
Proof.
  destruct (skip_spaces_split true (String.rev s)) as (w & Hw).
  exists (reverse w). unfold rstrip.
  rewrite chars_rev, <- reverse_app, <- Hw, chars_rev.
  by rewrite reverse_involutive.
Qed.

Lemma lstrip_rstrip s : skip_space false s = None → lstrip (rstrip s) = rstrip s.
Proof.
  intros Hs. apply skip_spaces_id.
  destruct (rstrip_prefix s) as (w & Hw).
  apply (skip_space_prefix _ w).
  by rewrite <- Hw, String.string_of_list_ascii_of_string.
Qed.

Lemma rstrip_rstrip s : rstrip (rstrip s) = rstrip s.
Proof.
  unfold rstrip. rewrite rev_rev. f_equal.
  apply skip_spaces_id, skip_spaces_done.
Qed.

End strip_facts.

Lemma strip_strip s : strip (strip s) = strip s.
Proof.
  unfold strip. rewrite lstrip_rstrip by apply skip_spaces_done.
  apply rstrip_rstrip.
Qed.

Section ui_facts.

Lemma elem_of_get_habits conn h : h ∈ get_habits conn ↔ h ∈ habits conn.
Proof. unfold get_habits. by rewrite merge_sort_Permutation. Qed.

(** What a successful submit of the log form has done. *)
Lemma log_form_submit_registered conn now habit_sel note m conn' :
  log_form_submit conn now habit_sel note = registered m conn' →
  ∃ h, h ∈ habits conn ∧ h_name h = habit_sel ∧
       add_log conn now (h_id h) (Some now) (Some note) = Ok (None, conn').
Proof.
  unfold log_form_submit.
  destruct (get_habits conn) as [|g gs] eqn:Hg; [done|]. rewrite <- Hg.
  rewrite h_opt_get.
  destruct (last (filter _ (get_habits conn))) as [h|] eqn:Hlast; [|done].
  simpl.
  assert (h ∈ filter (λ h, h_name h = habit_sel) (get_habits conn)) as Hin.
  { apply last_Some in Hlast as [l' ->]. apply elem_of_app. right. by left. }
  apply list_elem_of_filter in Hin as [Hname Hin%elem_of_get_habits].
  destruct (add_log conn now (h_id h) (Some now) (Some note))
    as [[ret c]|e] eqn:Hadd; [|done].
  intros [= _ <-]. exists h. split; [done|]. split; [done|].
  by apply add_log_inv in Hadd as Hinv; destruct Hinv as (_ & -> & _).
Qed.

Lemma quick_log_ok conn now i ret conn' :
  quick_log conn now i = Some (Ok (ret, conn')) →
  ∃ h, get_habits conn !! i = Some h ∧ h ∈ habits conn ∧
       add_log conn now (h_id h) None None = Ok (ret, conn').
Proof.
  unfold quick_log. destruct (get_habits conn !! i) as [h|] eqn:Hi; [|done].
  simpl. intros [= Hadd]. exists h. split; [done|]. split; [|done].
  apply elem_of_get_habits, list_elem_of_lookup. eauto.
Qed.

Lemma add_log_ok conn now hid ts note ret conn' :
  add_log conn now hid ts note = Ok (ret, conn') →
  habits conn' = habits conn ∧
  ∃ rowid, logs conn' = logs conn ++ [mkLog rowid hid (default now ts) note].
Proof.
  intros (_ & _ & ->)%add_log_inv. simpl. split; [done|]. by eexists.
Qed.

Lemma form_habit_submit_habits conn now name category target color :
  habits (form_habit_submit conn now name category target color).2
    = habits conn ∨
  (strip name ≠ EmptyString ∧
   ∃ rowid,
     habits (form_habit_submit conn now name category target color).2
     = habits conn
         ++ [mkHabit rowid (strip name) (strip category) target color now]).
Proof.
  unfold form_habit_submit. case_bool_decide; [by left|].
  right. split; [done|]. by eexists.
Qed.

Lemma form_habit_submit_logs conn now name category target color :
  logs (form_habit_submit conn now name category target color).2 = logs conn.
Proof. unfold form_habit_submit. by case_bool_decide. Qed.

End ui_facts.

Lemma ui_no_orphans conn :
  ui_reachable conn →
  ∀ l, l ∈ logs conn → l_habit_id l ∈ h_id <$> habits conn.
Proof.
  induction 1 as [|conn now name category target color _ IH
                  |conn now sel note m conn' _ IH Hsub
                  |conn now i ret conn' _ IH Hq].
  - by intros l ?%elem_of_nil.
  - rewrite form_habit_submit_logs. intros l Hl%IH.
    destruct (form_habit_submit_habits conn now name category target color)
      as [->|(_ & rowid & ->)]; [done|].
    rewrite fmap_app. apply elem_of_app. by left.
  - apply log_form_submit_registered in Hsub as (h & Hh & _ & Hadd).
    apply add_log_ok in Hadd as (-> & rowid & ->).
    intros l [Hl| ->%list_elem_of_singleton]%elem_of_app; [auto|].
    apply list_elem_of_fmap. by exists h.
  - apply quick_log_ok in Hq as (h & _ & Hh & Hadd).
    apply add_log_ok in Hadd as (-> & rowid & ->).
    intros l [Hl| ->%list_elem_of_singleton]%elem_of_app; [auto|].
    apply list_elem_of_fmap. by exists h.
Qed.

(** X7.  Whatever the forms and the "+1" buttons have done, every log
    refers to an existing habit, and every row of [get_logs] has a habit
    name. *)
Theorem ui_logs_always_have_their_habit conn :
  ui_reachable conn →
  (∀ l, l ∈ logs conn → l_habit_id l ∈ h_id <$> habits conn) ∧
  (∀ row, row ∈ get_logs conn → is_Some (r_habit_name row)).
Proof.
  intros Hui. pose proof (ui_no_orphans conn Hui) as Hno.
  split; [done|].
  intros row. rewrite elem_of_get_logs.
  intros (l & Hl & _ & Hname)%elem_of_left_join.
  destruct (r_habit_name row); [by eexists|].
  apply Hno, list_elem_of_fmap in Hl as (h & Hid & Hh).
  by destruct (Hname h Hh).
Qed.

(** X8.  Whatever the forms and the "+1" buttons have done, every stored
    habit name is non-empty and is left unchanged by [strip]: it has no
    leading or trailing white space. *)
Theorem ui_habit_names_are_stripped conn :
  ui_reachable conn →
  ∀ h, h ∈ habits conn →
    h_name h ≠ EmptyString ∧ strip (h_name h) = h_name h.
Proof.
  induction 1 as [|conn now name category target color _ IH
                  |conn now sel note m conn' _ IH Hsub
                  |conn now i ret conn' _ IH Hq].
  - by intros h ?%elem_of_nil.
  - destruct (form_habit_submit_habits conn now name category target color)
      as [->|(Hne & rowid & ->)]; [done|].
    intros h [Hh| ->%list_elem_of_singleton]%elem_of_app; [auto|]. simpl.
    split; [done|apply strip_strip].
  - apply log_form_submit_registered in Hsub as (h & _ & _ & Hadd).
    by apply add_log_ok in Hadd as (-> & _).
  - apply quick_log_ok in Hq as (h & _ & _ & Hadd).
    by apply add_log_ok in Hadd as (-> & _).
Qed.

Section listing_facts.

Lemma left_join_new_habit ls hs new :
  (∀ l, l ∈ ls → l_habit_id l ≠ h_id new) →
  left_join ls (hs ++ [new]) = left_join ls hs.
Proof.
  induction ls as [|l ls IH]; intros Hne; [done|].
  rewrite (left_join_cons l ls), (left_join_cons l ls (hs)), IH.
  2:{ intros l' Hl'. apply Hne. by right. }
  f_equal. unfold left_join. simpl. rewrite filter_app.
  rewrite (filter_cons_False _ new), filter_nil, !app_nil_r; [done|].
  intros Heq. by apply (Hne l); [left|].
Qed.

End listing_facts.

(** X9.  On a connection produced by the forms and the "+1" buttons,
    submitting the habit form, accepted or not, leaves the result of
    [get_logs] unchanged. *)
Theorem ui_new_habit_keeps_log_listing conn now name category target color :
  ui_reachable conn →
  get_logs (form_habit_submit conn now name category target color).2
    = get_logs conn.
Proof.
  intros Hui. unfold form_habit_submit. case_bool_decide; [done|]. simpl.
  unfold get_logs. simpl. f_equal. apply left_join_new_habit. simpl.
  intros l Hl Heq.
  apply (ui_no_orphans conn Hui) in Hl.
  apply (next_rowid_fresh (habits_seq conn)) in Hl. lia.
Qed.

Section streak_algebra.

Lemma calc_streaks_is utcnow df hid :
  ∃ cur best,
    calc_streaks utcnow df hid = Ok (cur, best) ∧
    is_streaks (logged_on df hid) cur best.
Proof.
  destruct (calc_streaks_char utcnow df hid)
    as [[Hnone Heq]|(m & cur & best & Heq & H)].
  - exists 0, 0. split; [done|]. by left.
  - exists cur, best. split; [done|]. right. by exists m.
Qed.

Lemma is_streaks_unique (S T : Z → Prop) cur best cur' best' :
  (∀ d, S d ↔ T d) →
  is_streaks S cur best → is_streaks T cur' best' →
  cur = cur' ∧ best = best'.
Proof.
  intros HST
    [(Hn & -> & ->)|(m & Hm & Hub & Hrun & _ & Hmax & d & Hd & Hdb)]
    [(Hn' & -> & ->)|(m' & Hm' & Hub' & Hrun' & _ & Hmax' & d' & Hd' & Hdb')].
  - done.
  - destruct (Hn m'). by apply HST.
  - destruct (Hn' m). by apply HST.
  - assert (m = m') as <-.
    { apply HST in Hm as HmT. apply HST in Hm' as Hm'S.
      specialize (Hub _ Hm'S). specialize (Hub' _ HmT). lia. }
    assert (∀ x k, run_at S x k ↔ run_at T x k) as Hrt.
    { intros x k. split; apply run_at_ext; intros y _; by rewrite HST. }
    split.
    + apply Hrt in Hrun. by apply (run_at_unique T m).
    + apply Hrt in Hdb as HdbT. apply Hrt in Hdb' as Hdb'S.
      apply HST in Hd as HdT. apply HST in Hd' as Hd'S.
      specialize (Hmax _ _ Hd'S Hdb'S). specialize (Hmax' _ _ HdT HdbT). lia.
Qed.

Lemma calc_streaks_from_is utcnow df hid cur best :
  is_streaks (logged_on df hid) cur best →
  calc_streaks utcnow df hid = Ok (cur, best).
Proof.
  intros His. destruct (calc_streaks_is utcnow df hid) as (c & b & -> & Hcb).
  by destruct (is_streaks_unique _ _ _ _ _ _ (λ d, iff_refl _) Hcb His)
    as [-> ->].
Qed.

Lemma calc_streaks_to_is utcnow df hid cur best :
  calc_streaks utcnow df hid = Ok (cur, best) →
  is_streaks (logged_on df hid) cur best.
Proof.
  destruct (calc_streaks_is utcnow df hid) as (c & b & -> & Hcb).
  by intros [= <- <-].
Qed.

Lemma logged_on_with_row r df hid d :
  logged_on (with_row r df) hid d ↔
  logged_on df hid d ∨ (passes hid r ∧ date (ts r) = d).
Proof.
  unfold logged_on, with_row, passes. simpl. split.
  - intros (x & [->|Hx]%elem_of_cons & Hp & Hd); [by right|].
    left. by exists x.
  - intros [(x & Hx & Hp & Hd)|[Hp Hd]].
    + exists x. split; [by right|done].
    + exists r. split; [by left|done].
Qed.

(** Every day has a run length in a finite set of days. *)
Lemma run_exists (l : list Z) d : ∃ k, run_at (.∈ l) d k.
Proof.
  destruct (foldl_min_spec l 0) as (_ & Hlo).
  remember (foldl Z.min 0 l) as lo eqn:Elo. clear Elo.
  assert (∀ (n : nat) d, d - lo + 1 ≤ Z.of_nat n → ∃ k, run_at (.∈ l) d k)
    as H; [|apply (H (Z.to_nat (d - lo + 1))); lia].
  clear d. induction n as [|n IH]; intros d Hd.
  - exists 0. split; [lia|]. split; [lia|].
    rewrite Z.sub_0_r. intros Hin%Hlo. lia.
  - destruct (decide (d ∈ l)) as [Hin|Hout].
    + destruct (IH (d - 1)) as (k & Hk & Hall & Hnot); [lia|].
      exists (k + 1). split; [lia|]. split.
      * intros i Hi. destruct (decide (i = 0)) as [->|Hi0].
        -- by rewrite Z.sub_0_r.
        -- replace (d - i) with (d - 1 - (i - 1)) by lia. apply Hall. lia.
      * by replace (d - (k + 1)) with (d - 1 - k) by lia.
    + exists 0. split; [lia|]. split; [lia|]. by rewrite Z.sub_0_r.
Qed.

Lemma run_exists_logged df hid d : ∃ k, run_at (logged_on df hid) d k.
Proof.
  destruct (run_exists (days_of (select (tz_localize_None df) hid)) d)
    as (k & Hk).
  exists k. eapply run_at_ext; [|exact Hk].
  intros y _. apply elem_of_days_of_select.
Qed.

Lemma is_streaks_best_nonneg S cur best : is_streaks S cur best → 0 ≤ cur ≤ best.
Proof.
  intros [(_ & -> & ->)|(m & Hm & _ & Hrun & Hc & Hmax & _)]; [lia|].
  specialize (Hmax m cur Hm Hrun). lia.
Qed.

End streak_algebra.

Lemma calc_streaks_ext utcnow utcnow' df hid df' hid' :
  (∀ d, logged_on df hid d ↔ logged_on df' hid' d) →
  calc_streaks utcnow df hid = calc_streaks utcnow' df' hid'.
Proof.
  intros Hsame.
  destruct (calc_streaks_is utcnow df hid) as (c & b & -> & Hcb).
  destruct (calc_streaks_is utcnow' df' hid') as (c' & b' & -> & Hcb').
  by destruct (is_streaks_unique _ _ _ _ _ _ Hsame Hcb Hcb') as [-> ->].
Qed.


(** X12.  One more row on a day that is already logged, or one that does
    not pass the habit filter, leaves the result of [calc_streaks]
    unchanged. *)
Theorem calc_streaks_ignores_repeated_and_foreign_rows utcnow df hid r :
  logged_on df hid (date (ts r)) ∨ ¬ passes hid r →
  calc_streaks utcnow (with_row r df) hid = calc_streaks utcnow df hid.
Proof.
  intros Hr. apply calc_streaks_ext. intros d.
  rewrite logged_on_with_row. split; [|by left].
  intros [Hd|[Hp <-]]; [done|]. by destruct Hr.
Qed.

(** X13.  One more row on the day after the latest logged day raises
    [current] by one and makes [best] the larger of the old [best] and the
    new [current]. *)
Theorem calc_streaks_next_day_extends utcnow df hid r m cur best :
  calc_streaks utcnow df hid = Ok (cur, best) →
  logged_on df hid m → (∀ d, logged_on df hid d → d ≤ m) →
  passes hid r → date (ts r) = m + 1 →
  calc_streaks utcnow (with_row r df) hid
    = Ok (cur + 1, Z.max best (cur + 1)).
Proof.
  intros Hcalc%calc_streaks_to_is Hm Hub Hp Hr.
  apply calc_streaks_from_is.
  destruct Hcalc as [(Hn & _)|(m0 & Hm0 & Hub0 & Hrun & Hc & Hmax & d & Hd & Hdb)];
    [by destruct (Hn m)|].
  assert (m0 = m) as -> by (specialize (Hub _ Hm0); specialize (Hub0 _ Hm); lia).
  set (S' := logged_on (with_row r df) hid).
  assert (HS' : ∀ x, S' x ↔ logged_on df hid x ∨ x = m + 1).
  { intros x. unfold S'. rewrite logged_on_with_row, Hr. split.
    - intros [?|[_ ?]]; auto.
    - intros [?|?]; auto. }
  assert (Hold : ∀ x k, x ≤ m →
            run_at S' x k ↔ run_at (logged_on df hid) x k).
  { intros x k Hx. split; apply run_at_ext; intros y Hy; rewrite HS';
      split; auto; try lia; intros [?|?]; auto; lia. }
  assert (Hnew : run_at S' (m + 1) (cur + 1)).
  { destruct Hrun as (_ & Hin & Hout). split; [lia|]. split.
    - intros i Hi. apply HS'. destruct (decide (i = 0)) as [->|Hi0].
      + right. lia.
      + left. replace (m + 1 - i) with (m - (i - 1)) by lia. apply Hin. lia.
    - rewrite HS'. replace (m + 1 - (cur + 1)) with (m - cur) by lia.
      intros [?|?]; [done|lia]. }
  right. exists (m + 1). split; [apply HS'; by right|].
  split; [intros x [Hx%Hub| ->]%HS'; lia|].
  split; [done|]. split; [lia|]. split.
  - intros x k [Hx| ->]%HS' Hk.
    + apply Hold in Hk; [|by apply Hub]. specialize (Hmax x k Hx Hk). lia.
    + rewrite (run_at_unique _ _ _ _ Hk Hnew). lia.
  - destruct (Z.max_spec best (cur + 1)) as [[_ ->]|[_ ->]].
    + exists (m + 1). split; [apply HS'; by right|done].
    + exists d. split; [apply HS'; by left|].
      apply Hold; [by apply Hub|done].
Qed.

(** X14.  One more row later than the day after the latest logged day
    puts [current] back to 1 and leaves [best] as it was. *)
Theorem calc_streaks_after_gap_restarts utcnow df hid r m cur best :
  calc_streaks utcnow df hid = Ok (cur, best) →
  logged_on df hid m → (∀ d, logged_on df hid d → d ≤ m) →
  passes hid r → m + 1 < date (ts r) →
  calc_streaks utcnow (with_row r df) hid = Ok (1, best).
Proof.
  intros Hcalc%calc_streaks_to_is Hm Hub Hp Hr.
  apply calc_streaks_from_is.
  destruct Hcalc as [(Hn & _)|(m0 & Hm0 & Hub0 & Hrun & Hc & Hmax & d & Hd & Hdb)];
    [by destruct (Hn m)|].
  assert (m0 = m) as -> by (specialize (Hub _ Hm0); specialize (Hub0 _ Hm); lia).
  set (g := date (ts r)) in *.
  set (S' := logged_on (with_row r df) hid).
  assert (HS' : ∀ x, S' x ↔ logged_on df hid x ∨ x = g).
  { intros x. unfold S'. rewrite logged_on_with_row. split.
    - intros [?|[_ ?]]; auto.
    - intros [?|?]; auto. }
  assert (Hold : ∀ x k, x ≤ m →
            run_at S' x k ↔ run_at (logged_on df hid) x k).
  { intros x k Hx. split; apply run_at_ext; intros y Hy; rewrite HS';
      split; auto; try lia; intros [?|?]; auto; lia. }
  assert (Hnew : run_at S' g 1).
  { split; [lia|]. split.
    - intros i Hi. replace (g - i) with g by lia. apply HS'. by right.
    - rewrite HS'. intros [Hx%Hub|?]; lia. }
  assert (1 ≤ best) by (specialize (Hmax m cur Hm Hrun); lia).
  right. exists g. split; [apply HS'; by right|].
  split; [intros x [Hx%Hub| ->]%HS'; lia|].
  split; [done|]. split; [lia|]. split.
  - intros x k [Hx| ->]%HS' Hk.
    + apply Hold in Hk; [|by apply Hub]. by apply (Hmax x).
    + rewrite (run_at_unique _ _ _ _ Hk Hnew). lia.
  - exists d. split; [apply HS'; by left|].
    apply Hold; [by apply Hub|done].
Qed.

(** X15.  [best] is monotone in the set of logged days: if every day
    logged in one frame (under its filter) is logged in another, the first
    [best] is at most the second.  So further entries never lower [best],
    and a habit filter never raises it. *)
Theorem calc_streaks_best_is_monotone utcnow df hid df' hid' cur best cur' best' :
  (∀ d, logged_on df hid d → logged_on df' hid' d) →
  calc_streaks utcnow df hid = Ok (cur, best) →
  calc_streaks utcnow df' hid' = Ok (cur', best') →
  best ≤ best'.
Proof.
  intros Hsub H%calc_streaks_to_is H'%calc_streaks_to_is.
  pose proof (is_streaks_best_nonneg _ _ _ H') as Hnn.
  destruct H as [(_ & _ & ->)|(m & Hm & _ & _ & _ & _ & d & Hd & Hdb)]; [lia|].
  destruct H' as [(Hn' & _)|(m' & _ & _ & _ & _ & Hmax' & _)];
    [by destruct (Hn' m); apply Hsub|].
  destruct (run_exists_logged df' hid' d) as (k & Hk).
  assert (best ≤ k); [|specialize (Hmax' d k (Hsub _ Hd) Hk); lia].
  destruct Hdb as (_ & Hin & _). destruct Hk as (Hk0 & _ & Hout).
  destruct (decide (best ≤ k)) as [|Hlt]; [done|].
  destruct Hout. apply Hsub, Hin. lia.
Qed.

Section bounds.

Lemma days_of_length df : (length (days_of df) ≤ length (rows df))%nat.
Proof.
  unfold days_of. rewrite merge_sort_Permutation.
  rewrite <- (length_fmap (λ r, date (ts r)) (rows df)).
  apply submseteq_length, NoDup_submseteq; [apply NoDup_elements|].
  intros x. by rewrite elem_of_elements, elem_of_list_to_set.
Qed.

Lemma days_of_NoDup df : NoDup (days_of df).
Proof.
  unfold days_of. rewrite merge_sort_Permutation. apply NoDup_elements.
Qed.

Lemma select_length df hid :
  (length (rows (select (tz_localize_None df) hid)) ≤ length (rows df))%nat.
Proof.
  unfold select. destruct (truthy hid); simpl; [apply length_filter|done].
Qed.

Lemma run_length_bound (l : list Z) d k :
  NoDup l → run_at (.∈ l) d k → k ≤ Z.of_nat (length l).
Proof.
  intros Hnd (Hk & Hin & _).
  assert (length ((λ i : nat, (d - Z.of_nat i)%Z) <$> seq 0 (Z.to_nat k))
          ≤ length l)%nat
    as Hlen.
  { apply submseteq_length, NoDup_submseteq.
    - apply NoDup_fmap_2_strong; [|apply NoDup_seq]. intros i j _ _. lia.
    - intros x (i & -> & Hi%elem_of_seq)%list_elem_of_fmap. apply Hin. lia. }
  rewrite length_fmap, length_seq in Hlen. lia.
Qed.

End bounds.

(** X16.  The result of [calc_streaks] satisfies
    [0 <= current <= best <= number of rows of the frame]. *)
Theorem calc_streaks_bounded_by_rows utcnow df hid cur best :
  calc_streaks utcnow df hid = Ok (cur, best) →
  0 ≤ cur ≤ best ∧ best ≤ Z.of_nat (length (rows df)).
Proof.
  intros H%calc_streaks_to_is.
  split; [by apply is_streaks_best_nonneg in H|].
  destruct H as [(_ & _ & ->)|(m & _ & _ & _ & _ & _ & d & _ & Hdb)]; [lia|].
  assert (run_at (.∈ days_of (select (tz_localize_None df) hid)) d best) as Hrun.
  { eapply run_at_ext; [|exact Hdb]. intros y _.
    by rewrite elem_of_days_of_select. }
  apply run_length_bound in Hrun.
  - pose proof (days_of_length (select (tz_localize_None df) hid)).
    pose proof (select_length df hid). lia.
  - apply days_of_NoDup.
Qed.

Section window_facts.



End window_facts.




Lemma ui_example_ui : ui_reachable ui_example.
Proof. unfold ui_example. repeat apply ui_form_habit. apply ui_init. Qed.

Lemma ui_example_logged_ui : ui_reachable ui_example_logged.
Proof.
  eapply (ui_log_form ui_example "2024-01-09T08:00:00" "Run" "5 km");
    [apply ui_example_ui|reflexivity].
Qed.

(** X10.  With [n] habits stored, the "+1" button of row [i] of the
    list ([i < n]) appends one log for the habit with id [n - i], stamped
    with the clock reading and without a note; the habits are untouched. *)
Theorem quick_log_logs_listed_habit conn now (i : nat) :
  reachable conn →
  (i < length (habits conn))%nat →
  ∃ conn' rowid,
    quick_log conn now i = Some (Ok (None, conn')) ∧
    logs conn' =
      logs conn
        ++ [mkLog rowid (Z.of_nat (length (habits conn) - i)) now None] ∧
    habits conn' = habits conn.
Proof.
  intros Hr Hi. unfold quick_log.
  rewrite (get_habits_reverse conn Hr).
  destruct (reachable_keys conn Hr) as (Hk & _).
  destruct (lookup_lt_is_Some_2 (reverse (habits conn)) i) as [h Hh];
    [by rewrite length_reverse|].
  rewrite Hh. simpl.
  assert (h_id h = Z.of_nat (length (habits conn) - i)) as Hid.
  { rewrite reverse_lookup in Hh by done.
    apply (f_equal (fmap h_id)) in Hh. rewrite <- list_lookup_fmap, Hk in Hh.
    unfold first_ids in Hh. rewrite list_lookup_fmap, lookup_seq_lt in Hh by lia.
    simpl in Hh. injection Hh as <-. lia. }
  rewrite add_log_Ok; [|by apply reachable_foreign_keys_off|].
  - eexists _, _. split; [reflexivity|]. simpl. by rewrite Hid.
  - apply (reachable_int64 conn); [done|].
    rewrite reverse_lookup in Hh by done.
    apply list_elem_of_lookup. eauto.
Qed.

Lemma ui_example_reachable : reachable ui_example.
Proof.
  repeat (apply reach_add_habit; [|by vm_compute]). apply reach_init.
Qed.

Lemma ui_example_logged_reachable : reachable ui_example_logged.
Proof.
  apply (reach_add_log ui_example "2024-01-09T08:00:00" 1
           (Some "2024-01-09T08:00:00") (Some "5 km") None);
    [apply ui_example_reachable|reflexivity].
Qed.

Lemma table_keys_are_consecutive_witness :
  h_id <$> habits ui_example_logged = [1; 2; 3] ∧
  habits_seq ui_example_logged = 3 ∧
  l_id <$> logs ui_example_logged = [1] ∧
  logs_seq ui_example_logged = 1.
Proof.
  exact (table_keys_are_consecutive ui_example_logged
           ui_example_logged_reachable).
Defined.

Lemma get_habits_is_reverse_insertion_order_witness :
  h_id <$> get_habits ui_example = [3; 2; 1].
Proof.
  rewrite (get_habits_is_reverse_insertion_order ui_example
             ui_example_reachable).
  reflexivity.
Defined.

Lemma get_logs_one_row_per_log_witness :
  length (get_logs ui_example_logged) = 1%nat.
Proof.
  exact (proj1 (get_logs_one_row_per_log ui_example_logged
                  ui_example_logged_reachable)).
Defined.

Lemma log_form_logs_oldest_habit_of_that_name_witness :
  ∃ conn',
    log_form_submit ui_example "2024-01-09T08:00:00" "Run" "5 km"
      = registered (st_success "Registrado ‚úÖ") conn' ∧
    l_habit_id <$> logs conn' = [1].
Proof.
  destruct (log_form_logs_oldest_habit_of_that_name
              ui_example "2024-01-09T08:00:00" "Run" "5 km"
              ui_example_reachable)
    as (h & conn' & rowid & Hsub & _).
  - exists (mkHabit 2 "Run" "sport" 2 "#06b6d4" "2024-01-02T09:00:00").
    split; [|done]. right. by left.
  - exists conn'. split; [exact Hsub|]. by injection Hsub as <-.
Defined.

Lemma ui_logs_always_have_their_habit_witness :
  Forall (λ row, is_Some (r_habit_name row)) (get_logs ui_example_logged).
Proof.
  apply Forall_forall.
  exact (proj2 (ui_logs_always_have_their_habit ui_example_logged
                  ui_example_logged_ui)).
Defined.

Lemma ui_habit_names_are_stripped_witness :
  Forall (λ h, h_name h ≠ EmptyString ∧ strip (h_name h) = h_name h)
    (habits ui_example).
Proof.
  apply Forall_forall.
  exact (ui_habit_names_are_stripped ui_example ui_example_ui).
Defined.

Lemma ui_new_habit_keeps_log_listing_witness :
  get_logs (form_habit_submit ui_example_logged
              "2024-01-10T09:00:00" "Walk" "health" 1 "#7c3aed").2
  = get_logs ui_example_logged.
Proof.
  exact (ui_new_habit_keeps_log_listing ui_example_logged
           "2024-01-10T09:00:00" "Walk" "health" 1 "#7c3aed"
           ui_example_logged_ui).
Defined.

Lemma quick_log_logs_listed_habit_witness :
  ∃ conn',
    quick_log ui_example "2024-01-09T08:00:00" 0 = Some (Ok (None, conn')) ∧
    logs conn' = [mkLog 1 3 "2024-01-09T08:00:00" None].
Proof.
  destruct (quick_log_logs_listed_habit ui_example "2024-01-09T08:00:00" 0
              ui_example_reachable)
    as (conn' & rowid & Hq & _); [simpl; lia|].
  exists conn'. split; [exact Hq|]. by injection Hq as <-.
Defined.


Lemma calc_streaks_ignores_repeated_and_foreign_rows_witness :
  calc_streaks now_2024_01_09
    (with_row (mkRow 1 (at_time (ymd 2024 1 4) 22 0 0)) gap_frame) None
  = calc_streaks now_2024_01_09 gap_frame None.
Proof.
  apply calc_streaks_ignores_repeated_and_foreign_rows.
  left. apply gap_frame_days. right. right. reflexivity.
Defined.

Lemma gap_frame_latest d : logged_on gap_frame None d → d ≤ ymd 2024 1 4.
Proof. intros [-> | [-> | ->]]%gap_frame_days; by vm_compute. Qed.

Lemma calc_streaks_next_day_extends_witness :
  calc_streaks now_2024_01_09
    (with_row (mkRow 1 (at_time (ymd 2024 1 5) 6 0 0)) gap_frame) None
  = Ok (2, 2).
Proof.
  apply (calc_streaks_next_day_extends now_2024_01_09 gap_frame None
           (mkRow 1 (at_time (ymd 2024 1 5) 6 0 0)) (ymd 2024 1 4) 1 2).
  - reflexivity.
  - apply gap_frame_days. right. by right.
  - apply gap_frame_latest.
  - intros H. discriminate H.
  - reflexivity.
Defined.

Lemma calc_streaks_after_gap_restarts_witness :
  calc_streaks now_2024_01_09
    (with_row (mkRow 1 now_2024_01_09) gap_frame) None
  = Ok (1, 2).
Proof.
  apply (calc_streaks_after_gap_restarts now_2024_01_09 gap_frame None
           (mkRow 1 now_2024_01_09) (ymd 2024 1 4) 1 2).
  - reflexivity.
  - apply gap_frame_days. right. by right.
  - apply gap_frame_latest.
  - intros H. discriminate H.
  - by vm_compute.
Defined.

Lemma calc_streaks_best_is_monotone_witness :
  ∃ cur best cur' best',
    calc_streaks now_2024_01_09 gap_frame None = Ok (cur, best) ∧
    calc_streaks now_2024_01_09
      (with_row (mkRow 1 (at_time (ymd 2024 1 3) 12 0 0)) gap_frame) None
      = Ok (cur', best') ∧
    best = 2 ∧ best' = 4 ∧ best ≤ best'.
Proof.
  exists 1, 2, 4, 4.
  split; [reflexivity|]. split; [reflexivity|].
  split; [reflexivity|]. split; [reflexivity|].
  apply (calc_streaks_best_is_monotone now_2024_01_09
           gap_frame None
           (with_row (mkRow 1 (at_time (ymd 2024 1 3) 12 0 0)) gap_frame) None
           1 2 4 4).
  - intros d Hd. apply logged_on_with_row. by left.
  - reflexivity.
  - reflexivity.
Defined.

Lemma calc_streaks_bounded_by_rows_witness :
  0 ≤ 1 ≤ 2 ∧ 2 ≤ Z.of_nat (length (rows gap_frame)).
Proof.
  by apply (calc_streaks_bounded_by_rows now_2024_01_09 gap_frame None 1 2).
Defined.


Section option_facts.

Lemma elem_of_dict_keys_set k v d k' :
  k' ∈ dict_keys (dict_set k v d) ↔ k' = k ∨ k' ∈ dict_keys d.
Proof.
  unfold dict_keys. induction d as [|[k0 v0] d IH]; simpl.
  - rewrite list_elem_of_singleton, elem_of_nil. tauto.
  - case_bool_decide as Hk; simpl.
    + subst k0. rewrite !elem_of_cons. tauto.
    + rewrite !elem_of_cons, IH. tauto.
Qed.

Lemma NoDup_dict_keys_set k v d :
  NoDup (dict_keys d) → NoDup (dict_keys (dict_set k v d)).
Proof.
  induction d as [|[k0 v0] d IH]; simpl.
  - intros _. apply NoDup_singleton.
  - intros [Hk0 Hd]%NoDup_cons. case_bool_decide as Hk; simpl.
    + subst k0. by apply NoDup_cons.
    + apply NoDup_cons. split; [|by apply IH].
      intros [?|?]%(elem_of_dict_keys_set k v d k0); [by subst|done].
Qed.

End option_facts.

(** X20.  The options of the log form's select box, the keys of [h_opt],
    are exactly the names of the stored habits, each name once. *)
Theorem log_form_options_are_habit_names conn :
  NoDup (dict_keys (h_opt (get_habits conn))) ∧
  ∀ k, k ∈ dict_keys (h_opt (get_habits conn)) ↔
       ∃ h, h ∈ habits conn ∧ h_name h = k.
Proof.
  assert (∀ l : list Habit,
            NoDup (dict_keys (h_opt l)) ∧
            ∀ k, k ∈ dict_keys (h_opt l) ↔ ∃ h, h ∈ l ∧ h_name h = k) as H.
  { unfold h_opt. induction l as [|x l [IHn IHk]] using rev_ind.
    - split; [constructor|]. intros k. split; [by intros ?%elem_of_nil|].
      by intros (h & ?%elem_of_nil & _).
    - rewrite foldl_snoc. split; [by apply NoDup_dict_keys_set|].
      intros k. rewrite elem_of_dict_keys_set, IHk. split.
      + intros [->|(h & Hh & Hn)].
        * exists x. split; [|done]. apply elem_of_app. right. by left.
        * exists h. split; [|done]. apply elem_of_app. by left.
      + intros (h & [Hh| ->%list_elem_of_singleton]%elem_of_app & Hn).
        * right. by exists h.
        * by left. }
  destruct (H (get_habits conn)) as [Hn Hk]. split; [done|].
  intros k. rewrite Hk. unfold get_habits.
  by setoid_rewrite merge_sort_Permutation.
Qed.

(** * Further properties of the stored texts *)

Section text_facts.


Lemma strip_outer_clean s :
  skip_space false (strip s) = None ∧
  skip_space true (String.rev (strip s)) = None.
Proof.
  unfold strip. split.
  - rewrite <- (lstrip_rstrip (lstrip s)) by apply skip_spaces_done.
    apply skip_spaces_done.
  - unfold rstrip. rewrite rev_rev. apply skip_spaces_done.
Qed.

Lemma strip_infix s :
  ∃ w w', String.list_ascii_of_string s
          = w ++ String.list_ascii_of_string (strip s) ++ w'.
Proof.
  destruct (skip_spaces_split false s) as (w & Hw).
  destruct (rstrip_prefix (lstrip s)) as (w' & Hw').
  exists w, w'. unfold strip. by rewrite <- Hw'.
Qed.

End text_facts.

Lemma string_compare_refl s : String.compare s s = Eq.
Proof.
  pose proof (String.compare_antisym s s) as H.
  by destruct (String.compare s s).
Qed.

Lemma lex_Eq c k : lex c k = Eq → c = Eq ∧ k = Eq.
Proof. by destruct c. Qed.

Lemma datetime_compare_Eq a b : datetime_compare a b = Eq → a = b.
Proof.
  unfold datetime_compare.
  intros (H1 & (H2 & (H3 & (H4 & (H5 & (H6 & H7)%lex_Eq)%lex_Eq)%lex_Eq)
            %lex_Eq)%lex_Eq)%lex_Eq.
  apply N.compare_eq in H1, H2, H3, H4, H5, H6, H7.
  destruct a, b. simpl in *. by subst.
Qed.

(** X21.  The texts [isoformat] writes for two datetimes, with the same
    separator, compare byte by byte as Python compares the datetimes; so
    [ORDER BY ts] orders such texts by time, and different datetimes have
    different texts. *)
Theorem isoformat_orders_as_datetimes sep a b :
  valid_datetime a → valid_datetime b →
  String.compare (isoformat sep a) (isoformat sep b) = datetime_compare a b ∧
  (text_le (isoformat sep a) (isoformat sep b) ↔ datetime_le a b) ∧
  (isoformat sep a = isoformat sep b → a = b).
Proof.
  intros Ha Hb. split; [by apply isoformat_compare|].
  split; [by apply isoformat_le|].
  intros Heq. apply datetime_compare_Eq.
  rewrite <- (isoformat_compare sep) by done.
  rewrite Heq. apply string_compare_refl.
Qed.

Lemma isoformat_orders_as_datetimes_witness :
  String.compare "2024-01-09T08:00:00" "2024-01-09T08:00:00.000005" = Lt.
Proof.
  exact (proj1 (isoformat_orders_as_datetimes "T"%char
                  (mkDatetime 2024 1 9 8 0 0 0) (mkDatetime 2024 1 9 8 0 0 5)
                  ltac:(by vm_compute) ltac:(by vm_compute))).
Defined.





(** X24.  [strip] keeps a middle part of the string, and what it keeps
    neither starts nor ends with a white-space character; stripping again
    changes nothing. *)
Theorem strip_removes_outer_white_space s :
  (∃ w w', String.list_ascii_of_string s
           = w ++ String.list_ascii_of_string (strip s) ++ w') ∧
  skip_space false (strip s) = None ∧
  skip_space true (String.rev (strip s)) = None ∧
  strip (strip s) = strip s.
Proof.
  split; [apply strip_infix|].
  destruct (strip_outer_clean s) as [H1 H2].
  split; [done|]. split; [done|apply strip_strip].
Qed.


